(** * AudioCat: header probe and WAV / MP3 stitch engines

    A shallow embedding of the TypeScript sources

      - io.ts          (isPathLike, openSource, closeSource, readBytes,
        streamCopyToFile)
      - the minimal header prober (parseWavHeader, skipId3Size,
        parseMp3Header, probe)
      - stitch-wav.ts  (createWavHeader, stitchWav)
      - stitch-mp3.ts  (skipId3Size, findFirstFrameOffset,
        estimateFrameDurationMs, loadSilenceAsset, stitchMp3)
      - index.ts       (stitch)
      - the fixture builder of the tests (makeWav)

    Conventions.

      - A Node [Buffer] is a [list byte]; offsets, sizes and header fields
        are [Z].
      - JavaScript numbers that can be fractional (bitsPerSample / 8, the
        MP3 frame duration) are exact rationals [Q]; the double rounding of
        the run-time is not modelled.
      - A thrown [Error] (or a rejected promise) is [Err e]; the
        constructors of [Error] are the messages of the source.
      - An [AudioSource] is the byte content it denotes; a path source is
        represented by the content of the file it names. The paths
        themselves, the files that can be missing and the table of open
        descriptors come with [Source] and [Fs], over which [probe] and the
        two engines are embedded a second time.
      - The file a file-mode call writes is kept apart from the sources: the
        output path is taken to name none of them.
      - The prober is the self-contained header parser of the repository;
        the variant that delegates to the music-metadata package is not
        embedded, its parser being outside these sources.
      - Loops of the source that are not structurally bounded carry a fuel
        argument; [None] stands for a loop that is still running.
      - Memory limits of the run-time ([Buffer.alloc] of several GiB) are
        not modelled. *)

From Stdlib Require Import ZArith QArith Qround Lia List String Ascii DecimalString.
From Stdlib.Strings Require Import Byte.
From stdpp Require Import base list strings.
Import ListNotations.

Local Open Scope Z_scope.

(** ** Errors and the error monad *)

Inductive ChannelMode := mono | stereo.

Inductive Error :=
| NoSourcesProvided              (* 'No sources provided' *)
| UnrecognizedContainer          (* 'Unsupported or unrecognized audio container' *)
| RequiresWavInputs              (* 'stitchWav requires WAV inputs' *)
| AllInputsMustBeWav             (* 'All inputs must be WAV' *)
| WavParameterMismatch           (* 'WAV parameter mismatch across sources' *)
| WavDataChunkNotFound           (* 'WAV data chunk not found' *)
| WavOutputPathRequired          (* 'WAV file output path required' *)
| RequiresMp3Inputs              (* 'stitchMp3 requires MP3 inputs' *)
| AllInputsMustBeMp3             (* 'All inputs must be MP3' *)
| Mp3ParameterMismatch           (* 'MP3 parameter mismatch across sources' *)
| Mp3BitrateMismatch             (* 'MP3 bitrate mismatch across sources' *)
| Mp3FrameSyncNotFound           (* 'MP3 frame sync not found' *)
| Mp3OutputPathRequired          (* 'MP3 file output path required' *)
| SilenceAssetNotFound (sampleRate : Z) (mode : ChannelMode) (bitrate : Z)
                                 (* 'Silence asset not found for ...' *)
| FileNotReadable (path : string) (* fs.readFileSync throws *)
| RangeError.                    (* Buffer read or write out of range *)

Inductive result (A : Type) :=
| Ok (a : A)
| Err (e : Error).
Arguments Ok {A} a.
Arguments Err {A} e.

Definition bind {A B} (m : result A) (f : A -> result B) : result B :=
  match m with
  | Ok a => f a
  | Err e => Err e
  end.

Declare Scope result_scope.
Delimit Scope result_scope with result.
Notation "'let*' x ':=' m 'in' k" := (bind m (fun x => k))
  (at level 10, x name, m at level 100, k at level 200) : result_scope.
Notation "'let*' ' p ':=' m 'in' k" := (bind m (fun x => match x with p => k end))
  (at level 10, p pattern, m at level 100, k at level 200) : result_scope.
Local Open Scope result_scope.

(** ** Node's Buffer *)

Abbreviation Buffer := (list byte).

Definition byteZ (b : byte) : Z := Z.of_N (Byte.to_N b).

(** The byte stored by [buf[i] = v] for an integer [v]: [v] modulo 256. *)
Definition u8 (v : Z) : byte :=
  match Byte.of_N (Z.to_N (v mod 256)) with
  | Some b => b
  | None => x00
  end.

Definition blen (buf : Buffer) : Z := Z.of_nat (length buf).

(** [buf.readUInt8(i)] for an index inside the buffer; every call of
    [readUInt8] in the sources is under a guard that keeps [i] in range. *)
Definition at_ (buf : Buffer) (i : Z) : Z :=
  byteZ (nth (Z.to_nat i) buf x00).

Definition u16le (buf : Buffer) (offset : Z) : Z :=
  at_ buf offset + at_ buf (offset + 1) * 2 ^ 8.

Definition u32le (buf : Buffer) (offset : Z) : Z :=
  at_ buf offset + at_ buf (offset + 1) * 2 ^ 8
  + at_ buf (offset + 2) * 2 ^ 16 + at_ buf (offset + 3) * 2 ^ 24.

(** [readUInt16LE] and [readUInt32LE] throw when the field does not lie
    inside the buffer. *)
Definition readUInt16LE (buf : Buffer) (offset : Z) : result Z :=
  if (0 <=? offset) && (offset + 2 <=? blen buf)
  then Ok (u16le buf offset)
  else Err RangeError.

Definition readUInt32LE (buf : Buffer) (offset : Z) : result Z :=
  if (0 <=? offset) && (offset + 4 <=? blen buf)
  then Ok (u32le buf offset)
  else Err RangeError.

(** [buf.toString('ascii', start, end)]: the range is clamped to the buffer,
    and the 'ascii' decoder clears the top bit of every byte. *)
Definition toStringAscii (buf : Buffer) (start end_ : Z) : string :=
  let s := Z.max 0 start in
  let e := Z.min end_ (blen buf) in
  string_of_list_ascii
    (map (fun b => ascii_of_N (N.land (Byte.to_N b) 127))
         (take (Z.to_nat (e - s)) (drop (Z.to_nat s) buf))).

(** [buf.subarray(start, end)]: negative indices count from the end, and
    both are clamped to the buffer. *)
Definition clampIndex (len i : Z) : Z :=
  if i <? 0 then Z.max (len + i) 0 else Z.min i len.

Definition subarray (buf : Buffer) (start end_ : Z) : Buffer :=
  let s := clampIndex (blen buf) start in
  let e := clampIndex (blen buf) end_ in
  take (Z.to_nat (e - s)) (drop (Z.to_nat s) buf).

(** [Buffer.alloc(n, 0)] *)
Definition alloc (n : Z) : Buffer := repeat x00 (Z.to_nat n).

(** Overwrite [buf] from [offset] with [bytes] (which fit). *)
Definition blit (buf : Buffer) (offset : Z) (bytes : Buffer) : Buffer :=
  take (Z.to_nat offset) buf ++ bytes
  ++ drop (Z.to_nat offset + length bytes) buf.

(** [buf.write(s, offset)] for an ASCII literal that fits. *)
Definition write (buf : Buffer) (s : string) (offset : Z) : Buffer :=
  blit buf offset (list_byte_of_string s).

(** [checkInt]: the value must lie in [0, max]; a fractional value is then
    truncated by the element stores and the [>>> 8] shifts. *)
Definition checkInt (value : Q) (max : Z) : result Z :=
  if Qle_bool 0 value && Qle_bool value (inject_Z max)
  then Ok (Qfloor value)
  else Err RangeError.

Definition writeUInt16LE (buf : Buffer) (value : Q) (offset : Z) : result Buffer :=
  let* v := checkInt value 65535 in
  Ok (blit buf offset [u8 v; u8 (Z.shiftr v 8)]).

Definition writeUInt32LE (buf : Buffer) (value : Q) (offset : Z) : result Buffer :=
  let* v := checkInt value 4294967295 in
  Ok (blit buf offset
        [u8 v; u8 (Z.shiftr v 8); u8 (Z.shiftr v 16); u8 (Z.shiftr v 24)]).

(** ** io.ts *)

Inductive AudioSource :=
| SrcBuffer (bytes : Buffer)      (* Buffer | Uint8Array *)
| SrcPath (contents : Buffer).    (* a path; [contents] is the file it names *)

Inductive SourceKind := KBuffer | KFile.

Record OpenedSource := {
  kind : SourceKind;
  size : Z;
  contents : Buffer;     (* [buffer], or the bytes behind [fd] *)
}.

Definition openSource (source : AudioSource) : OpenedSource :=
  match source with
  | SrcPath c => {| kind := KFile; size := blen c; contents := c |}
  | SrcBuffer b => {| kind := KBuffer; size := blen b; contents := b |}
  end.

(** [fs.readSync(fd, out, 0, length, position)]: the number of bytes read
    from a regular file, short only at end-of-file. *)
Definition readSync (file : Buffer) (length position : Z) : Z :=
  Z.max 0 (Z.min length (blen file - position)).

Definition readBytes (opened : OpenedSource) (offset length : Z) : Buffer :=
  match kind opened with
  | KBuffer => subarray (contents opened) offset (offset + length)
  | KFile =>
      let bytes := readSync (contents opened) length offset in
      (* [out]: Buffer.alloc(length) with its first [bytes] bytes read *)
      let out := take (Z.to_nat bytes) (drop (Z.to_nat offset) (contents opened))
                 ++ alloc (length - bytes) in
      subarray out 0 bytes
  end.

Definition bytesOf (source : AudioSource) : Buffer := contents (openSource source).

(** The header window every engine reads first: [readBytes(opened, 0, 8192)]. *)
Definition headWindow : nat := Z.to_nat 8192.

Definition headOf (source : AudioSource) : Buffer :=
  take headWindow (bytesOf source).

(** ** types.ts *)

Record WavProbeInfo := {
  wav_sampleRate : Z;
  wav_channels : Z;
  bitsPerSample : Z;
  dataBytes : option Z;
}.

Record Mp3ProbeInfo := {
  mp3_sampleRate : Z;
  mp3_channels : Z;
  bitrateKbps : option Z;
  vbr : bool;
  id3v2Bytes : option Z;
}.

Inductive ProbeInfo :=
| Wav (info : WavProbeInfo)
| Mp3 (info : Mp3ProbeInfo).



Definition sampleRate (p : ProbeInfo) : Z :=
  match p with Wav w => wav_sampleRate w | Mp3 m => mp3_sampleRate m end.

Definition channels (p : ProbeInfo) : Z :=
  match p with Wav w => wav_channels w | Mp3 m => mp3_channels m end.

(** ** The header prober *)

Record WalkState := {
  fmtFound : bool;
  ws_dataBytes : option Z;
  ws_sampleRate : Z;
  ws_channels : Z;
  ws_bitsPerSample : Z;
}.

(** The chunk walk of [parseWavHeader]: [Ok None] is the early
    [return null] on a non-PCM fmt chunk, [Ok (Some st)] the state when the
    [while] loop ends. Every iteration advances [offset] by at least 8, so
    [fuel] = the buffer length is never exhausted (see [walkChunks_fuel]);
    [None] is the outcome "out of fuel". *)
Fixpoint walkChunks (fuel : nat) (buf : Buffer) (offset : Z) (st : WalkState)
  : option (result (option WalkState)) :=
  if offset + 8 <=? blen buf then
    match fuel with
    | O => None
    | S fuel' =>
        let id := toStringAscii buf offset (offset + 4) in
        match readUInt32LE buf (offset + 4) with
        | Err e => Some (Err e)
        | Ok size =>
            let next := offset + 8 + size in
            if String.eqb id "fmt " then
              match readUInt16LE buf (offset + 8),
                    readUInt16LE buf (offset + 10),
                    readUInt32LE buf (offset + 12),
                    readUInt16LE buf (offset + 22) with
              | Ok audioFormat, Ok channels, Ok sampleRate, Ok bitsPerSample =>
                  if negb (audioFormat =? 1) then Some (Ok None)
                  else walkChunks fuel' buf next
                         {| fmtFound := true;
                            ws_dataBytes := ws_dataBytes st;
                            ws_sampleRate := sampleRate;
                            ws_channels := channels;
                            ws_bitsPerSample := bitsPerSample |}
              | _, _, _, _ => Some (Err RangeError)
              end
            else if String.eqb id "data" then
              walkChunks fuel' buf next
                {| fmtFound := fmtFound st;
                   ws_dataBytes := Some size;
                   ws_sampleRate := ws_sampleRate st;
                   ws_channels := ws_channels st;
                   ws_bitsPerSample := ws_bitsPerSample st |}
            else walkChunks fuel' buf next st
        end
    end
  else Some (Ok (Some st)).

Definition parseWavHeader (buf : Buffer) : result (option WavProbeInfo) :=
  if blen buf <? 44 then Ok None
  else if negb (String.eqb (toStringAscii buf 0 4) "RIFF") then Ok None
  else if negb (String.eqb (toStringAscii buf 8 12) "WAVE") then Ok None
  else
    let init := {| fmtFound := false; ws_dataBytes := None; ws_sampleRate := 0;
                   ws_channels := 0; ws_bitsPerSample := 0 |} in
    match walkChunks (length buf) buf 12 init with
    | None => Ok None      (* never taken: walkChunks_fuel *)
    | Some (Err e) => Err e
    | Some (Ok None) => Ok None
    | Some (Ok (Some st)) =>
        if negb (fmtFound st) || (ws_sampleRate st =? 0) || (ws_channels st =? 0)
           || (ws_bitsPerSample st =? 0)
        then Ok None
        else Ok (Some {| wav_sampleRate := ws_sampleRate st;
                         wav_channels := ws_channels st;
                         bitsPerSample := ws_bitsPerSample st;
                         dataBytes := ws_dataBytes st |})
    end.

Definition skipId3Size (buf : Buffer) : Z :=
  if blen buf <? 10 then 0
  else if negb (String.eqb (toStringAscii buf 0 3) "ID3") then 0
  else
    let b6 := at_ buf 6 in
    let b7 := at_ buf 7 in
    let b8 := at_ buf 8 in
    let b9 := at_ buf 9 in
    let size :=
      Z.lor (Z.lor (Z.lor (Z.shiftl (Z.land b6 127) 21) (Z.shiftl (Z.land b7 127) 14))
                   (Z.shiftl (Z.land b8 127) 7))
            (Z.land b9 127) in
    10 + size.

(** A frame sync at [i]: 0xFF followed by a byte with its top three bits set. *)
Definition isSync (buf : Buffer) (i : Z) : bool :=
  (at_ buf i =? 255) && (Z.land (at_ buf (i + 1)) 224 =? 224).

Definition sampleRatesOf (versionBits : Z) : list Z :=
  if versionBits =? 3 then [44100; 48000; 32000] else [22050; 24000; 16000].

Definition bitrateTable (bitrateIndex : Z) : option Z :=
  match bitrateIndex with
  | 1 => Some 32 | 2 => Some 40 | 3 => Some 48 | 4 => Some 56
  | 5 => Some 64 | 6 => Some 80 | 7 => Some 96 | 8 => Some 112
  | 9 => Some 128 | 10 => Some 160 | 11 => Some 192 | 12 => Some 224
  | 13 => Some 256 | 14 => Some 320
  | _ => None
  end.

(** The body of the [for] loop of [parseMp3Header] at index [i]: [None] is
    [continue] (or no sync at [i]), [Some info] the returned record. The
    entry [sampleRates[sampleRateIndex]] is read with default 0 for
    [undefined]; the guard on the index excludes it. *)
Definition decodeFrameAt (buf : Buffer) (start i : Z) : option Mp3ProbeInfo :=
  let b1 := at_ buf i in
  let b2 := at_ buf (i + 1) in
  if (b1 =? 255) && (Z.land b2 224 =? 224) then
    let versionBits := Z.land (Z.shiftr b2 3) 3 in
    let layerBits := Z.land (Z.shiftr b2 1) 3 in
    if negb (layerBits =? 1) then None
    else
      let b3 := at_ buf (i + 2) in
      let bitrateIndex := Z.land (Z.shiftr b3 4) 15 in
      let sampleRateIndex := Z.land (Z.shiftr b3 2) 3 in
      if (bitrateIndex =? 15) || (sampleRateIndex =? 3) then None
      else
        let b4 := at_ buf (i + 3) in
        let channelMode := Z.land (Z.shiftr b4 6) 3 in
        let sampleRates := sampleRatesOf versionBits in
        let sampleRate := nth (Z.to_nat sampleRateIndex) sampleRates 0 in
        let channels := if channelMode =? 3 then 1 else 2 in
        Some {| mp3_sampleRate := sampleRate;
                mp3_channels := channels;
                bitrateKbps := bitrateTable bitrateIndex;
                vbr := false;
                id3v2Bytes := Some start |}
  else None.

(** [for (let i = start; i + 4 <= maxScan; i++)], with [n] iterations left. *)
Fixpoint scanFrames (n : nat) (buf : Buffer) (start i : Z) : option Mp3ProbeInfo :=
  match n with
  | O => None
  | S n' =>
      match decodeFrameAt buf start i with
      | Some info => Some info
      | None => scanFrames n' buf start (i + 1)
      end
  end.

Definition parseMp3Header (buf : Buffer) (start : Z) : option Mp3ProbeInfo :=
  let maxScan := Z.min (blen buf) (start + 4096) in
  scanFrames (Z.to_nat (maxScan - 3 - start)) buf start start.

Definition probeBuffer (head : Buffer) : result ProbeInfo :=
  let* w := parseWavHeader head in
  match w with
  | Some info => Ok (Wav info)
  | None =>
      let id3 := skipId3Size head in
      match parseMp3Header head id3 with
      | Some info => Ok (Mp3 info)
      | None => Err UnrecognizedContainer
      end
  end.

Definition probe (source : AudioSource) : result ProbeInfo :=
  let opened := openSource source in
  let head := readBytes opened 0 8192 in
  probeBuffer head.

(** ** Options (types.ts) *)

Inductive OutputTarget :=
| OutBuffer                       (* { type: 'buffer' } *)
| OutFile (path : string).        (* { type: 'file', path } *)

Inductive GapRounding := nearest | floor | ceil.

Inductive Silence :=
| SilenceBuffer (b : Buffer)      (* a Buffer *)
| SilenceBytes (u : Buffer)       (* a Uint8Array that is not a Buffer *)
| SilencePath (p : string).

Record StitchOptions := {
  gapMs : option Z;
  output : OutputTarget;
  silence : option Silence;
  keepFirstId3 : option bool;
  gapRounding : option GapRounding;
}.

(** What a stitch call leaves behind: the value returned (or the error
    thrown), and the bytes written at the output path ([None]: the file was
    never touched). *)
Record Outcome := {
  returned : result (option Buffer);
  written : option Buffer;
}.

Definition throw (e : Error) : Outcome := {| returned := Err e; written := None |}.

(** ** stitch-wav.ts *)

Definition createWavHeader (totalDataBytes : Z) (info : WavProbeInfo) : result Buffer :=
  let channels := inject_Z (wav_channels info) in
  let sampleRate := inject_Z (wav_sampleRate info) in
  let bitsPerSample := inject_Z (bitsPerSample info) in
  let byteRate := (sampleRate * channels * (bitsPerSample / 8))%Q in
  let blockAlign := (channels * (bitsPerSample / 8))%Q in
  let buffer := alloc 44 in
  let buffer := write buffer "RIFF" 0 in
  let* buffer := writeUInt32LE buffer (inject_Z (36 + totalDataBytes)) 4 in
  let buffer := write buffer "WAVE" 8 in
  let buffer := write buffer "fmt " 12 in
  let* buffer := writeUInt32LE buffer 16 16 in
  let* buffer := writeUInt16LE buffer 1 20 in
  let* buffer := writeUInt16LE buffer channels 22 in
  let* buffer := writeUInt32LE buffer sampleRate 24 in
  let* buffer := writeUInt32LE buffer byteRate 28 in
  let* buffer := writeUInt16LE buffer blockAlign 32 in
  let* buffer := writeUInt16LE buffer bitsPerSample 34 in
  let buffer := write buffer "data" 36 in
  let* buffer := writeUInt32LE buffer (inject_Z totalDataBytes) 40 in
  Ok buffer.

(** The validation loop: every source (the first one again) is probed and
    compared with [firstInfo]. *)
Fixpoint validateWav (firstInfo : WavProbeInfo) (sources : list AudioSource)
  : result (list WavProbeInfo) :=
  match sources with
  | [] => Ok []
  | src :: rest =>
      let* info := probe src in
      match info with
      | Mp3 _ => Err AllInputsMustBeWav
      | Wav info =>
          if negb (wav_sampleRate info =? wav_sampleRate firstInfo)
             || negb (wav_channels info =? wav_channels firstInfo)
             || negb (bitsPerSample info =? bitsPerSample firstInfo)
          then Err WavParameterMismatch
          else
            let* infos := validateWav firstInfo rest in
            Ok (info :: infos)
      end
  end.

(** The scan for the 'data' chunk: [Some (Some (dataStart, dataSize))] at the
    [break], [Some None] when the loop ends with [dataStart = -1], [None] out
    of fuel (never with [fuel] = the buffer length, see [findData_fuel]). *)
Fixpoint findData (fuel : nat) (head : Buffer) (offset : Z) : option (option (Z * Z)) :=
  if offset + 8 <=? blen head then
    match fuel with
    | O => None
    | S fuel' =>
        let id := toStringAscii head offset (offset + 4) in
        (* readUInt32LE, in range under the loop guard *)
        let size := u32le head (offset + 4) in
        if String.eqb id "data" then Some (Some (offset + 8, size))
        else findData fuel' head (offset + 8 + size)
    end
  else Some None.

Record Part := {
  opened : OpenedSource;
  start : Z;
  length_ : Z;
}.

(** The loop over [opened] that fills [parts] and [totalData]; [n] is
    [opened.length] and [i] the index of the head of [rest]. *)
Fixpoint locateParts (n : Z) (gapMs bytesPerMs : Z) (i : Z) (rest : list OpenedSource)
    (totalData : Z) : result (list Part * Z) :=
  match rest with
  | [] => Ok ([], totalData)
  | cur :: rest' =>
      let head := readBytes cur 0 8192 in
      match findData (length head) head 12 with
      | Some (Some (dataStart, dataSize)) =>
          let totalData := totalData + dataSize in
          let totalData :=
            if (i <? n - 1) && (0 <? gapMs)
            then totalData + bytesPerMs * gapMs else totalData in
          let* '(parts, total) := locateParts n gapMs bytesPerMs (i + 1) rest' totalData in
          Ok ({| opened := cur; start := dataStart; length_ := dataSize |} :: parts, total)
      | _ => Err WavDataChunkNotFound
      end
  end.

(** The buffer-mode loop: the list [bufs] after the header. *)
Fixpoint bufferParts (n : Z) (gapMs bytesPerMs : Z) (i : Z) (parts : list Part)
  : list Buffer :=
  match parts with
  | [] => []
  | part :: parts' =>
      readBytes (opened part) (start part) (length_ part)
      :: (if (i <? n - 1) && (0 <? gapMs) then [alloc (bytesPerMs * gapMs)] else [])
      ++ bufferParts n gapMs bytesPerMs (i + 1) parts'
  end.

Definition chunkSize : Z := 64 * 1024.

(** [while (remaining > 0)]: the per-source copy loop of the file mode;
    [file] is the content of the output file, [None] is "still looping
    after [fuel] iterations". *)
Fixpoint copyLoop (fuel : nat) (src : OpenedSource) (position remaining : Z)
    (file : Buffer) : option Buffer :=
  if 0 <? remaining then
    match fuel with
    | O => None
    | S fuel' =>
        let toRead := Z.min chunkSize remaining in
        let chunk := readBytes src position toRead in
        copyLoop fuel' src (position + blen chunk) (remaining - blen chunk)
                 (file ++ chunk)
    end
  else Some file.

(** [while (gapBytes > 0)]: the zero chunk is written [n] bytes at a time. *)
Fixpoint gapLoop (fuel : nat) (gapBytes : Z) (file : Buffer) : option Buffer :=
  if 0 <? gapBytes then
    match fuel with
    | O => None
    | S fuel' =>
        let zeroChunk := alloc (64 * 1024) in
        let n := Z.min (blen zeroChunk) gapBytes in
        gapLoop fuel' (gapBytes - n) (file ++ subarray zeroChunk 0 n)
    end
  else Some file.

(** The file-mode loop over [parts]. *)
Fixpoint fileParts (fuel : nat) (n : Z) (gapMs bytesPerMs : Z) (i : Z)
    (parts : list Part) (file : Buffer) : option Buffer :=
  match parts with
  | [] => Some file
  | part :: parts' =>
      match copyLoop fuel (opened part) (start part) (length_ part) file with
      | None => None
      | Some file =>
          let after_gap :=
            if (i <? n - 1) && (0 <? gapMs)
            then gapLoop fuel (bytesPerMs * gapMs) file
            else Some file in
          match after_gap with
          | None => None
          | Some file => fileParts fuel n gapMs bytesPerMs (i + 1) parts' file
          end
      end
  end.

Definition bytesPerMsOf (firstInfo : WavProbeInfo) : Z :=
  let bytesPerSample := (inject_Z (bitsPerSample firstInfo) / 8)%Q in
  Qfloor ((inject_Z (wav_sampleRate firstInfo) * inject_Z (wav_channels firstInfo)
           * bytesPerSample) / 1000)%Q.

(** [stitchWav]; [fuel] bounds the iterations of each file-mode loop and
    [None] is a call that is still running after that many. *)
Definition stitchWav (fuel : nat) (sources : list AudioSource) (options : StitchOptions)
  : option Outcome :=
  match sources with
  | [] => Some (throw NoSourcesProvided)
  | first :: _ =>
      match probe first with
      | Err e => Some (throw e)
      | Ok (Mp3 _) => Some (throw RequiresWavInputs)
      | Ok (Wav firstInfo) =>
          let opened := map openSource sources in
          match validateWav firstInfo sources with
          | Err e => Some (throw e)
          | Ok infos =>
              let gapMs := default 0 (gapMs options) in
              let bytesPerMs := bytesPerMsOf firstInfo in
              match locateParts (Z.of_nat (length opened)) gapMs bytesPerMs 0 opened 0 with
              | Err e => Some (throw e)
              | Ok (parts, totalData) =>
                  match createWavHeader totalData firstInfo with
                  | Err e => Some (throw e)
                  | Ok header =>
                      match output options with
                      | OutBuffer =>
                          let bufs := header :: bufferParts (Z.of_nat (length parts)) gapMs bytesPerMs 0 parts in
                          Some {| returned := Ok (Some (concat bufs)); written := None |}
                      | OutFile outPath =>
                          if String.eqb outPath "" then Some (throw WavOutputPathRequired)
                          else
                            match fileParts fuel (Z.of_nat (length parts)) gapMs bytesPerMs 0 parts header with
                            | None => None
                            | Some file => Some {| returned := Ok None; written := Some file |}
                            end
                      end
                  end
              end
          end
      end
  end.

(** ** stitch-mp3.ts *)

(** [for (let i = start; i + 4 <= buf.length; i++)], with [n] iterations
    left; [None] is the result -1. *)
Fixpoint scanSync (n : nat) (buf : Buffer) (i : Z) : option Z :=
  match n with
  | O => None
  | S n' => if isSync buf i then Some i else scanSync n' buf (i + 1)
  end.

Definition findFirstFrameOffset (buf : Buffer) (start : Z) : option Z :=
  scanSync (Z.to_nat (blen buf - 3 - start)) buf start.

Definition estimateFrameDurationMs (info : Mp3ProbeInfo) : Q :=
  let samplesPerFrame := 1152%Q in
  ((samplesPerFrame / inject_Z (mp3_sampleRate info)) * 1000)%Q.

(** The files the resolver can see: the bundled catalog
    [assets/silence/mp3/<sampleRate>/<mono|stereo>/<bitrate>k.mp3] (absent
    entries are files for which [fs.existsSync] is false) and the files a
    caller-supplied path can name. *)
Record Env := {
  asset : Z -> ChannelMode -> Z -> option Buffer;
  readFileSync : string -> option Buffer;
}.

Definition decimal (n : Z) : string :=
  NilZero.string_of_uint (N.to_uint (Z.to_N n)).

(** [String(u)] of a Uint8Array: its elements in decimal, joined by commas. *)
Definition stringOfBytes (u : Buffer) : string :=
  String.concat "," (map (fun b => decimal (byteZ b)) u).

Definition readFile (env : Env) (p : string) : result Buffer :=
  match readFileSync env p with
  | Some b => Ok b
  | None => Err (FileNotReadable p)
  end.

(** [if (opts.silence)] is false for [undefined] and for the empty string;
    every object is truthy. *)
Definition loadSilenceAsset (env : Env) (info : Mp3ProbeInfo) (opts : StitchOptions)
  : result Buffer :=
  let bundled :=
    let channelMode := if mp3_channels info =? 1 then mono else stereo in
    let bitrateNum := default 128 (bitrateKbps info) in
    match asset env (mp3_sampleRate info) channelMode bitrateNum with
    | None => Err (SilenceAssetNotFound (mp3_sampleRate info) channelMode bitrateNum)
    | Some b => Ok b
    end in
  match silence opts with
  | Some (SilenceBuffer b) => Ok b
  | Some (SilenceBytes u) => readFile env (stringOfBytes u)
  | Some (SilencePath p) => if String.eqb p "" then bundled else readFile env p
  | None => bundled
  end.

(** The validation loop, from index 1. *)
Fixpoint validateMp3 (firstInfo : Mp3ProbeInfo) (rest : list AudioSource) : result unit :=
  match rest with
  | [] => Ok tt
  | src :: rest' =>
      let* info := probe src in
      match info with
      | Wav _ => Err AllInputsMustBeMp3
      | Mp3 info =>
          if negb (mp3_sampleRate info =? mp3_sampleRate firstInfo)
             || negb (mp3_channels info =? mp3_channels firstInfo)
          then Err Mp3ParameterMismatch
          else if negb (bool_decide (bitrateKbps info = bitrateKbps firstInfo))
          then Err Mp3BitrateMismatch
          else validateMp3 firstInfo rest'
      end
  end.

(** [Math.round]: to the nearest integer, halves up. *)
Definition round (x : Q) : Z := Qfloor (x + (1 # 2))%Q.

(** The number of copies of the silence clip pushed after a source. *)
Definition gapRepeats (firstInfo : Mp3ProbeInfo) (gapMs : Z) (gapRounding : GapRounding) : Z :=
  let frameDurMs := estimateFrameDurationMs firstInfo in
  let framesExact := (inject_Z gapMs / frameDurMs)%Q in
  let frames :=
    match gapRounding with
    | floor => Qfloor framesExact
    | ceil => Qceiling framesExact
    | nearest => round framesExact
    end in
  let frames := Z.max frames 0 in
  if 0 <? frames then
    Z.max 1 (Qceiling ((inject_Z frames * frameDurMs) / 100)%Q)
  else 0.

(** The loop over [opened] that fills [parts]; [n] is [opened.length] and
    [i] the index of the head of [rest]. *)
Fixpoint mp3Parts (env : Env) (firstInfo : Mp3ProbeInfo) (options : StitchOptions)
    (n : Z) (i : Z) (rest : list OpenedSource) : result (list Buffer) :=
  let keepFirstId3 := default true (keepFirstId3 options) in
  let gapMs := default 0 (gapMs options) in
  let gapRounding := default nearest (gapRounding options) in
  match rest with
  | [] => Ok []
  | cur :: rest' =>
      let head := readBytes cur 0 8192 in
      let id3 := skipId3Size head in
      match findFirstFrameOffset head id3 with
      | None => Err Mp3FrameSyncNotFound
      | Some frameOff =>
          let from := if keepFirstId3 && (i =? 0) then 0 else frameOff in
          let chunk := readBytes cur from (size cur - from) in
          let* gap :=
            if (i <? n - 1) && (0 <? gapMs) then
              let* silence := loadSilenceAsset env firstInfo options in
              Ok (repeat silence (Z.to_nat (gapRepeats firstInfo gapMs gapRounding)))
            else Ok [] in
          let* parts := mp3Parts env firstInfo options n (i + 1) rest' in
          Ok (chunk :: gap ++ parts)
      end
  end.

Definition stitchMp3 (env : Env) (sources : list AudioSource) (options : StitchOptions)
  : Outcome :=
  match sources with
  | [] => throw NoSourcesProvided
  | first :: rest =>
      match probe first with
      | Err e => throw e
      | Ok (Wav _) => throw RequiresMp3Inputs
      | Ok (Mp3 firstInfo) =>
          match validateMp3 firstInfo rest with
          | Err e => throw e
          | Ok _ =>
              let opened := map openSource sources in
              match mp3Parts env firstInfo options (Z.of_nat (length opened)) 0 opened with
              | Err e => throw e
              | Ok parts =>
                  match output options with
                  | OutBuffer => {| returned := Ok (Some (concat parts)); written := None |}
                  | OutFile outPath =>
                      if String.eqb outPath "" then throw Mp3OutputPathRequired
                      else {| returned := Ok None;
                              written := Some (fold_left (fun file p => file ++ p) parts []) |}
                  end
              end
          end
      end
  end.

(** ** io.ts: the exported helpers *)

(** [input.startsWith(prefix)] *)
Definition startsWith (input prefix : string) : bool := String.prefix prefix input.

Definition isPathLike (input : string) : bool :=
  startsWith input "/" || startsWith input "./" || startsWith input "../".

(** [streamCopyToFile]: the output file is opened with flag 'w', so it starts
    empty; the loops carry its content and the counter [written]. The inner
    loop is the copy loop of the WAV file mode with the counter added;
    [None] is "still looping after [fuel] iterations". *)
Fixpoint streamLoop (fuel : nat) (src : OpenedSource) (position remaining : Z)
    (file : Buffer) (written : Z) : option (Buffer * Z) :=
  if 0 <? remaining then
    match fuel with
    | O => None
    | S fuel' =>
        let toRead := Z.min chunkSize remaining in
        let chunk := readBytes src position toRead in
        streamLoop fuel' src (position + blen chunk) (remaining - blen chunk)
                   (file ++ chunk) (written + blen chunk)
    end
  else Some (file, written).

Fixpoint streamParts (fuel : nat) (sources : list Part) (file : Buffer) (written : Z)
  : option (Buffer * Z) :=
  match sources with
  | [] => Some (file, written)
  | part :: rest =>
      match streamLoop fuel (opened part) (start part) (length_ part) file written with
      | None => None
      | Some (file, written) => streamParts fuel rest file written
      end
  end.

(** The content of the output file and the number returned. *)
Definition streamCopyToFile (fuel : nat) (sources : list Part) : option (Buffer * Z) :=
  streamParts fuel sources [] 0.

(** ** index.ts *)




(** ** The fixtures of the tests (stitch-wav.test.ts, probe.test.ts) *)


(** ** The engines with their file descriptors

    Above, an opened source is the bytes behind it. What follows embeds
    [openSource], [closeSource], [probe] and the two engines once more with
    the state left out there: the files a path can name and the table of
    open descriptors. A path that names no file makes [fs.statSync] throw;
    the error is reported as [FileNotReadable]. Between [openSource] and
    [closeSource] a descriptor is open, so the reads in between are those
    of [readBytes] on the bytes of the file. *)

(** An [AudioSource] as the caller passes it. *)
Inductive Source :=
| Bytes (b : Buffer)          (* Buffer | Uint8Array *)
| Path (p : string).          (* a path, taken as resolved *)

Record Fs := {
  fileAt : string -> option Buffer;     (* the regular files *)
  openFds : list nat;                   (* the descriptors that are open *)
}.

Definition withFds (fs : Fs) (fds : list nat) : Fs :=
  {| fileAt := fileAt fs; openFds := fds |}.

(** [fs.openSync] returns a descriptor that is not in use. *)
Definition freshFd (fs : Fs) : nat := S (fold_right Nat.max 0%nat (openFds fs)).

Definition openSync (fs : Fs) : nat * Fs :=
  let fd := freshFd fs in (fd, withFds fs (fd :: openFds fs)).

(** [fs.closeSync(fd)] inside [try { } catch { }]: closing a descriptor
    that is not open changes nothing. *)
Definition closeSync (fd : nat) (fs : Fs) : Fs :=
  withFds fs (List.filter (fun x => negb (Nat.eqb x fd)) (openFds fs)).

Record Handle := {
  h_opened : OpenedSource;      (* kind, size and the bytes behind buffer or fd *)
  h_fd : option nat;
}.

Definition openSourceFd (source : Source) (fs : Fs) : result Handle * Fs :=
  match source with
  | Path filePath =>
      match fileAt fs filePath with
      | None => (Err (FileNotReadable filePath), fs)         (* fs.statSync throws *)
      | Some c =>
          let '(fd, fs) := openSync fs in
          (Ok {| h_opened := openSource (SrcPath c); h_fd := Some fd |}, fs)
      end
  | Bytes b => (Ok {| h_opened := openSource (SrcBuffer b); h_fd := None |}, fs)
  end.

Definition closeSourceFd (opened : Handle) (fs : Fs) : Fs :=
  match kind (h_opened opened), h_fd opened with
  | KFile, Some fd => closeSync fd fs
  | _, _ => fs
  end.

(** [probe]: [openSource] is called before the [try], [closeSource] in its
    [finally]. *)
Definition probeFd (source : Source) (fs : Fs) : result ProbeInfo * Fs :=
  match openSourceFd source fs with
  | (Err e, fs) => (Err e, fs)
  | (Ok opened, fs) =>
      let head := readBytes (h_opened opened) 0 8192 in
      (probeBuffer head, closeSourceFd opened fs)
  end.



(** The validation loop of [stitchWav], each [probe] with its descriptor. *)
Fixpoint validateWavFd (firstInfo : WavProbeInfo) (sources : list Source) (fs : Fs)
  : result (list WavProbeInfo) * Fs :=
  match sources with
  | [] => (Ok [], fs)
  | src :: rest =>
      match probeFd src fs with
      | (Err e, fs) => (Err e, fs)
      | (Ok (Mp3 _), fs) => (Err AllInputsMustBeWav, fs)
      | (Ok (Wav info), fs) =>
          if negb (wav_sampleRate info =? wav_sampleRate firstInfo)
             || negb (wav_channels info =? wav_channels firstInfo)
             || negb (bitsPerSample info =? bitsPerSample firstInfo)
          then (Err WavParameterMismatch, fs)
          else
            match validateWavFd firstInfo rest fs with
            | (Err e, fs) => (Err e, fs)
            | (Ok infos, fs) => (Ok (info :: infos), fs)
            end
      end
  end.





(** * Specification-side definitions

    The notions the properties below are stated with. *)

(** ** Probe results *)

(** The header fields stay inside the types of the data model (u32, u16). *)
Definition wsBounded (st : WalkState) : Prop :=
  0 <= ws_sampleRate st < 2 ^ 32 /\ 0 <= ws_channels st < 2 ^ 16
  /\ 0 <= ws_bitsPerSample st < 2 ^ 16
  /\ forall d, ws_dataBytes st = Some d -> 0 <= d < 2 ^ 32.

(** The two sample-rate tables and the Layer III bitrate table. *)
Definition knownSampleRates : list Z := [44100; 48000; 32000; 22050; 24000; 16000].

Definition knownBitrates : list Z :=
  [32; 40; 48; 56; 64; 80; 96; 112; 128; 160; 192; 224; 256; 320].

(** A probe result with every field of its variant in place. *)
Definition fullyPopulated (p : ProbeInfo) : Prop :=
  match p with
  | Wav w =>
      0 < wav_sampleRate w < 2 ^ 32 /\ 0 < wav_channels w < 2 ^ 16
      /\ 0 < bitsPerSample w < 2 ^ 16
      /\ (forall d, dataBytes w = Some d -> 0 <= d < 2 ^ 32)
  | Mp3 m =>
      In (mp3_sampleRate m) knownSampleRates
      /\ (mp3_channels m = 1 \/ mp3_channels m = 2)
      /\ (forall b, bitrateKbps m = Some b -> In b knownBitrates)
      /\ vbr m = false
      /\ exists n, id3v2Bytes m = Some n /\ 0 <= n
  end.

(** The RIFF/WAVE magic as [parseWavHeader] tests it (7-bit ASCII decoding). *)
Definition hasRiffWave (head : Buffer) : bool :=
  String.eqb (toStringAscii head 0 4) "RIFF"
  && String.eqb (toStringAscii head 8 12) "WAVE".




(** ** Homogeneity *)

Definition wavParams (w : WavProbeInfo) : Z * Z * Z :=
  (wav_sampleRate w, wav_channels w, bitsPerSample w).






(** Every source probes as WAV with the parameters of [w0]. *)
Definition homogeneousWav (w0 : WavProbeInfo) (srcs : list AudioSource) : Prop :=
  forall s, In s srcs -> exists w, probe s = Ok (Wav w) /\ wavParams w = wavParams w0.



(** ** The RIFF layout *)

(** Little-endian fields. *)
Definition le16 (v : Z) : Buffer := [u8 v; u8 (Z.shiftr v 8)].

Definition le32 (v : Z) : Buffer :=
  [u8 v; u8 (Z.shiftr v 8); u8 (Z.shiftr v 16); u8 (Z.shiftr v 24)].

(** The canonical 44-byte RIFF/WAVE/PCM header for [total] payload bytes. *)
Definition canonicalHeader (total channels sampleRate bits : Z) : Buffer :=
  list_byte_of_string "RIFF" ++ le32 (36 + total)
  ++ list_byte_of_string "WAVE"
  ++ list_byte_of_string "fmt " ++ le32 16
  ++ le16 1 ++ le16 channels ++ le32 sampleRate
  ++ le32 (sampleRate * channels * bits / 8) ++ le16 (channels * bits / 8) ++ le16 bits
  ++ list_byte_of_string "data" ++ le32 total.

(** The chunk list of a RIFF header read from [off]: the first chunk whose
    id reads 'data' has its payload at [start] and declares [size] bytes. *)
Inductive FirstData (head : Buffer) : Z -> Z -> Z -> Prop :=
| FirstData_here (off : Z) :
    off + 8 <= blen head ->
    toStringAscii head off (off + 4) = "data"%string ->
    FirstData head off (off + 8) (u32le head (off + 4))
| FirstData_skip (off start size : Z) :
    off + 8 <= blen head ->
    toStringAscii head off (off + 4) <> "data"%string ->
    FirstData head (off + 8 + u32le head (off + 4)) start size ->
    FirstData head off start size.

(** The data chunk of a source, located in its header window. *)
Definition DataChunk (src : AudioSource) (c : Z * Z) : Prop :=
  FirstData (headOf src) 12 (fst c) (snd c).


Definition sumSizes (chunks : list (Z * Z)) : Z :=
  fold_right (fun c acc => snd c + acc) 0 chunks.

(** The bytes of a source from [start], at most [len] of them. *)
Definition payload (bytes : Buffer) (start len : Z) : Buffer :=
  take (Z.to_nat len) (drop (Z.to_nat start) bytes).

(** What a source contributes to the output: the bytes of its data chunk
    that it holds. *)
Definition payloadOf (s : AudioSource) (c : Z * Z) : Buffer :=
  payload (bytesOf s) (fst c) (snd c).

(** The part [stitchWav] records for a source whose data chunk is [c]. *)
Definition mkPart (s : AudioSource) (c : Z * Z) : Part :=
  {| opened := openSource s; start := fst c; length_ := snd c |}.

(** [gap] between each pair of consecutive payloads. *)
Fixpoint interleave (gap : Buffer) (payloads : list Buffer) : Buffer :=
  match payloads with
  | [] => []
  | p :: rest =>
      p ++ match rest with
           | [] => []
           | _ :: _ => gap ++ interleave gap rest
           end
  end.

(** floor(sampleRate * channels * (bitsPerSample / 8) / 1000) *)
Definition wavBytesPerMs (w : WavProbeInfo) : Z :=
  wav_sampleRate w * wav_channels w * bitsPerSample w / 8000.

(** ** The MP3 layout *)

(** [off] is the first frame sync of the source at or after its ID3v2 tag,
    inside the header window. *)
Definition FirstSync (s : AudioSource) (off : Z) : Prop :=
  let head := headOf s in
  let id3 := skipId3Size head in
  id3 <= off /\ off + 4 <= blen head /\ isSync head off = true
  /\ forall j, id3 <= j < off -> isSync head j = false.


(** The gap arithmetic in integers, for a sample rate [sr] > 0: the frame
    count g / (1152 / sr * 1000) = g * sr / 1152000 rounded by the policy
    and clamped at 0, and the copies of the 0.1 s clip
    max(1, ceil(frames * (1152000 / sr) / 100)) when frames > 0. *)
Definition gapFrames (sr g : Z) (r : GapRounding) : Z :=
  Z.max 0
    match r with
    | floor => g * sr / 1152000
    | ceil => - (- (g * sr) / 1152000)
    | nearest => (2 * g * sr + 1152000) / 2304000
    end.

Definition silenceCopies (sr g : Z) (r : GapRounding) : Z :=
  let frames := gapFrames sr g r in
  if frames =? 0 then 0 else Z.max 1 (- (- (frames * 11520) / sr)).


(** ** Delivery *)


(** ** Sources as bytes *)


(** ** Options with one field replaced *)



(** ** Parts of a copy *)

(** The bytes a part names. *)
Definition partBytes (p : Part) : Buffer :=
  payload (contents (opened p)) (start p) (length_ p).

(** The part lies inside its source. *)
Definition partInRange (p : Part) : Prop :=
  0 <= start p /\ 0 <= length_ p /\ start p + length_ p <= blen (contents (opened p)).

(** The part asks for bytes its source does not hold. *)
Definition partOverrun (p : Part) : Prop :=
  0 <= start p /\ 0 < length_ p /\ blen (contents (opened p)) < start p + length_ p.

Definition sumLengths (parts : list Part) : Z :=
  fold_right (fun p acc => length_ p + acc) 0 parts.

(** ** The errors of the engines *)



(** ** Output modes *)




(** ** Header fields *)

(** The fields of a header for [total] payload bytes fit their u32/u16 slots. *)
Definition headerFits (total : Z) (w : WavProbeInfo) : Prop :=
  0 <= total /\ 36 + total <= 4294967295
  /\ 0 <= wav_channels w <= 65535 /\ 0 <= wav_sampleRate w <= 4294967295
  /\ 0 <= bitsPerSample w <= 65535
  /\ wav_sampleRate w * wav_channels w * bitsPerSample w <= 4294967295 * 8
  /\ wav_channels w * bitsPerSample w <= 65535 * 8.

(** ** ID3v2 tags *)

(** The four size bytes of an ID3v2 header for a tag body of [n] bytes:
    28 bits, seven to a byte, most significant first. *)
Definition synchsafe (n : Z) : Buffer :=
  [u8 (Z.shiftr n 21 mod 128); u8 (Z.shiftr n 14 mod 128); u8 (Z.shiftr n 7 mod 128);
   u8 (n mod 128)].

(** An ID3v2 header: the magic, the version, the flags and the size. *)
Definition id3Header (major minor flags : byte) (n : Z) : Buffer :=
  list_byte_of_string "ID3" ++ [major; minor; flags] ++ synchsafe n.

(** ** Fixtures *)



(** ** Sources and the files they name *)

(** The source as the engines above see it, when its path names a file. *)
Definition resolve (fs : Fs) (s : Source) : option AudioSource :=
  match s with
  | Bytes b => Some (SrcBuffer b)
  | Path p => option_map SrcPath (fileAt fs p)
  end.


Definition isPath (s : Source) : bool :=
  match s with Path _ => true | Bytes _ => false end.

(** The four bytes of the header of an MPEG audio frame of Layer III: eleven
    sync bits, the version, the layer (01), the indices of the bitrate and of
    the sample rate and the channel mode. [p2], [p3] and [p4] are the bits
    between them: protection; padding and private; mode extension, copyright,
    original and emphasis. *)
Definition frameHeader (versionBits bitrateIndex sampleRateIndex channelMode p2 p3 p4 : Z)
    : Buffer :=
  [xff;
   u8 (224 + versionBits * 8 + 2 + p2);
   u8 (bitrateIndex * 16 + sampleRateIndex * 4 + p3);
   u8 (channelMode * 64 + p4)].

(** * Example inputs *)

(** Options with a gap and an output target, everything else unset. *)
Definition options (g : Z) (out : OutputTarget) : StitchOptions :=
  {| gapMs := Some g; output := out; silence := None; keepFirstId3 := None;
     gapRounding := None |}.

(** A 44100 Hz mono 16-bit PCM WAV with four payload bytes. *)
Definition sampleWav : Buffer :=
  list_byte_of_string "RIFF" ++ [x28; x00; x00; x00] ++ list_byte_of_string "WAVEfmt "
  ++ [x10; x00; x00; x00; x01; x00; x01; x00; x44; xac; x00; x00; x88; x58; x01; x00;
      x02; x00; x10; x00]
  ++ list_byte_of_string "data" ++ [x04; x00; x00; x00; x01; x02; x03; x04].

Definition sampleInfo : WavProbeInfo :=
  {| wav_sampleRate := 44100; wav_channels := 1; bitsPerSample := 16;
     dataBytes := Some 4 |}.








(** Three MPEG-1 Layer III frame headers: 128 kbps 44100 Hz stereo,
    128 kbps 48000 Hz stereo, 192 kbps 44100 Hz stereo. *)
Definition frame128 : Buffer := [xff; xfb; x90; x00; x00; x00; x00; x00].
Definition frame128at48k : Buffer := [xff; xfb; x94; x00; x00; x00; x00; x00].

Definition frameInfo : Mp3ProbeInfo :=
  {| mp3_sampleRate := 44100; mp3_channels := 2; bitrateKbps := Some 128;
     vbr := false; id3v2Bytes := Some 0 |}.

(** An MP3 with a 14-byte ID3v2 tag (whose payload happens to look like a
    frame header) in front of its first frame. *)
Definition taggedMp3 : Buffer :=
  list_byte_of_string "ID3" ++ [x03; x00; x00; x00; x00; x00; x04]
  ++ [xff; xfb; x90; x00] ++ frame128.

(** A free-format frame header (bitrate index 0), 44100 Hz stereo. *)
Definition freeFormat : Buffer := [xff; xfb; x00; x00; x00; x00; x00; x00].

(** Forty bytes that open like a WAV file (RIFF/WAVE and a fmt chunk) and end
    with an MPEG-1 Layer III frame header: too short for [parseWavHeader],
    so they probe as MP3. *)
Definition riffMp3 : Buffer :=
  list_byte_of_string "RIFF" ++ [x20; x00; x00; x00] ++ list_byte_of_string "WAVEfmt "
  ++ [x10; x00; x00; x00; x01; x00; x01; x00; x44; xac; x00; x00; x88; x58; x01; x00;
      x02; x00; x10; x00]
  ++ [xff; xfb; x90; x00].


(** A stand-in for a bundled 0.1 s clip, and a catalog that holds it for
    44100 Hz stereo at 128 kbps only. *)
Definition clip : Buffer := [xff; xfb; x90; x00; x11; x22].

Definition oneAsset : Env :=
  {| asset := fun sr mode br =>
       if (sr =? 44100) && (br =? 128)
       then match mode with stereo => Some clip | mono => None end
       else None;
     readFileSync := fun _ => None |}.

(** * Properties *)

(** ** Bytes and buffers *)

Lemma byteZ_range (b : byte) : 0 <= byteZ b < 256.
Proof.
  unfold byteZ. pose proof (Byte.to_N_bounded b). lia.
Qed.

Lemma byteZ_u8 (v : Z) : byteZ (u8 v) = v mod 256.
Proof.
  unfold byteZ, u8.
  assert (Hr : 0 <= v mod 256 < 256) by (apply Z.mod_pos_bound; lia).
  destruct (Byte.of_N (Z.to_N (v mod 256))) as [b|] eqn:E.
  - apply Byte.to_of_N in E. rewrite E. lia.
  - apply Byte.of_N_None_iff in E. lia.
Qed.

Lemma at_range (buf : Buffer) (i : Z) : 0 <= at_ buf i < 256.
Proof. apply byteZ_range. Qed.

Lemma u16le_range (buf : Buffer) (i : Z) : 0 <= u16le buf i < 65536.
Proof.
  unfold u16le. pose proof (at_range buf i). pose proof (at_range buf (i + 1)). lia.
Qed.

Lemma u32le_range (buf : Buffer) (i : Z) : 0 <= u32le buf i < 4294967296.
Proof.
  unfold u32le.
  pose proof (at_range buf i). pose proof (at_range buf (i + 1)).
  pose proof (at_range buf (i + 2)). pose proof (at_range buf (i + 3)). lia.
Qed.

Lemma blen_nonneg (buf : Buffer) : 0 <= blen buf.
Proof. unfold blen. lia. Qed.

Lemma blen_app (a b : Buffer) : blen (a ++ b) = blen a + blen b.
Proof. unfold blen. rewrite length_app. lia. Qed.

Lemma blen_alloc (n : Z) : blen (alloc n) = Z.max 0 n.
Proof. unfold blen, alloc. rewrite repeat_length. lia. Qed.

Lemma take_clamp {A} (l : list A) (n m : nat) :
  Nat.min n (length l) = Nat.min m (length l) -> take n l = take m l.
Proof.
  intros H.
  destruct (Nat.le_gt_cases n (length l)), (Nat.le_gt_cases m (length l)).
  - f_equal. lia.
  - rewrite (take_ge l m) by lia. rewrite take_ge; [done | lia].
  - rewrite (take_ge l n) by lia. rewrite take_ge; [done | lia].
  - rewrite !take_ge; [done | lia | lia].
Qed.

Lemma subarray_take_drop (buf : Buffer) (offset len : Z) :
  0 <= offset -> 0 <= len ->
  subarray buf offset (offset + len) = take (Z.to_nat len) (drop (Z.to_nat offset) buf).
Proof.
  intros Ho Hl. unfold subarray, clampIndex, blen.
  destruct (offset <? 0) eqn:E1; [lia|].
  destruct (offset + len <? 0) eqn:E2; [lia|].
  destruct (Z_le_gt_dec offset (Z.of_nat (length buf))) as [Hle|Hgt].
  - rewrite (Z.min_l offset) by lia.
    apply take_clamp. rewrite length_drop. lia.
  - rewrite !drop_ge by lia. by rewrite !take_nil.
Qed.

(** Both kinds of opened source read the same range. *)
Lemma readBytes_range (o : OpenedSource) (offset len : Z) :
  0 <= offset -> 0 <= len ->
  readBytes o offset len = take (Z.to_nat len) (drop (Z.to_nat offset) (contents o)).
Proof.
  intros Ho Hl. unfold readBytes. destruct (kind o).
  - by apply subarray_take_drop.
  - unfold readSync.
    set (c := contents o).
    set (bytes := Z.max 0 (Z.min len (blen c - offset))).
    assert (Hb : 0 <= bytes <= len) by (unfold bytes; lia).
    replace bytes with (0 + bytes) at 3 by lia.
    rewrite subarray_take_drop by lia.
    change (Z.to_nat 0) with 0%nat. rewrite drop_0.
    assert (Hlen : length (take (Z.to_nat bytes) (drop (Z.to_nat offset) c)) = Z.to_nat bytes).
    { rewrite length_take, length_drop. unfold bytes, blen. lia. }
    rewrite take_app_le by lia. rewrite take_take.
    rewrite Nat.min_id.
    apply take_clamp. rewrite length_drop. unfold bytes, blen. lia.
Qed.

Lemma blen_readBytes (o : OpenedSource) (offset len : Z) :
  0 <= offset -> 0 <= len ->
  blen (readBytes o offset len) = Z.min len (Z.max 0 (blen (contents o) - offset)).
Proof.
  intros Ho Hl. rewrite readBytes_range by lia.
  unfold blen. rewrite length_take, length_drop. lia.
Qed.

Lemma take_drop_split {A} (l : list A) (p a b : nat) :
  take a (drop p l) ++ take b (drop (p + a) l) = take (a + b) (drop p l).
Proof. rewrite <- drop_drop. apply take_take_drop. Qed.

(** ** The per-source copy loop of the file mode *)

Section CopyLoop.
Variable src : OpenedSource.
Let c := contents src.

(** A bounded read inside the declared range returns all it asked for. *)
Lemma copy_read_full (position remaining : Z) :
  0 <= position -> 0 < remaining -> position + remaining <= blen c ->
  blen (readBytes src position (Z.min chunkSize remaining)) = Z.min chunkSize remaining.
Proof.
  intros Hp Hr Hb. unfold chunkSize in *. rewrite blen_readBytes by lia.
  fold c. lia.
Qed.

Lemma copyLoop_range (fuel : nat) :
  forall position remaining file,
    0 <= position -> 0 <= remaining -> position + remaining <= blen c ->
    remaining <= chunkSize * Z.of_nat fuel ->
    copyLoop fuel src position remaining file
    = Some (file ++ take (Z.to_nat remaining) (drop (Z.to_nat position) c)).
Proof.
  induction fuel as [|fuel IH]; intros position remaining file Hp Hr Hb Hf.
  - assert (remaining = 0) by (unfold chunkSize in Hf; lia). subst.
    simpl. by rewrite app_nil_r.
  - simpl. destruct (0 <? remaining) eqn:E.
    + apply Z.ltb_lt in E.
      pose proof (copy_read_full position remaining Hp E Hb) as Hfull.
      set (k := Z.min chunkSize remaining) in *.
      assert (Hk : 0 < k <= remaining) by (unfold k, chunkSize; lia).
      rewrite Hfull. rewrite IH; try lia.
      2:{ unfold k, chunkSize in *. lia. }
      rewrite readBytes_range by lia. fold c. rewrite <- app_assoc.
      f_equal. f_equal.
      replace (Z.to_nat (position + k)) with (Z.to_nat position + Z.to_nat k)%nat by lia.
      rewrite take_drop_split. f_equal. lia.
    + apply Z.ltb_ge in E. assert (remaining = 0) by lia. subst.
      simpl. by rewrite app_nil_r.
Qed.

(** When the declared size exceeds what the source holds, the reads stop
    short of [remaining] for ever: zero bytes at end-of-data. *)
Lemma copyLoop_stuck (fuel : nat) :
  forall position remaining file,
    0 <= position -> 0 < remaining -> blen c < position + remaining ->
    copyLoop fuel src position remaining file = None.
Proof.
  induction fuel as [|fuel IH]; intros position remaining file Hp Hr Hb; simpl.
  - destruct (0 <? remaining) eqn:E; [done|]. apply Z.ltb_ge in E. lia.
  - destruct (0 <? remaining) eqn:E; [|apply Z.ltb_ge in E; lia].
    assert (Hk : blen (readBytes src position (Z.min chunkSize remaining))
                 = Z.min (Z.min chunkSize remaining) (Z.max 0 (blen c - position))).
    { unfold chunkSize. rewrite blen_readBytes by lia. by fold c. }
    apply IH; unfold chunkSize in *; lia.
Qed.
End CopyLoop.

(** C9. The per-source copy loop of the file mode terminates when the
    declared data size does not exceed the bytes the source holds from the
    payload offset: every bounded read then returns at least one byte (all
    it asked for), and after at most ceil(len / 64 KiB) iterations the loop
    has appended exactly the payload. Without that precondition the reads
    come back short, in the end with zero bytes, [remaining] never reaches
    zero and the loop does not end. *)
Theorem copyLoop_terminates (src : OpenedSource) (start len : Z) (file : Buffer) :
  0 <= start -> 0 <= len ->
  (start + len <= blen (contents src) ->
   (forall position remaining,
       start <= position -> 0 < remaining -> position + remaining = start + len ->
       1 <= blen (readBytes src position (Z.min chunkSize remaining)))
   /\ forall fuel, len <= chunkSize * Z.of_nat fuel ->
        copyLoop fuel src start len file = Some (file ++ payload (contents src) start len))
  /\ (0 < len -> blen (contents src) < start + len ->
      forall fuel, copyLoop fuel src start len file = None).
Proof.
  intros Hs Hl. split.
  - intros Hb. split.
    + intros position remaining Hp Hr Hsum.
      rewrite copy_read_full by lia. unfold chunkSize. lia.
    + intros fuel Hf. by apply copyLoop_range.
  - intros Hpos Hb fuel. by apply copyLoop_stuck.
Qed.

Lemma copyLoop_terminates_witness :
  copyLoop 1 (openSource (SrcPath sampleWav)) 44 4 []
  = Some (payload sampleWav 44 4)
  /\ copyLoop 1000 (openSource (SrcPath sampleWav)) 44 5 [] = None.
Proof.
  split.
  - apply (proj1 (copyLoop_terminates (openSource (SrcPath sampleWav)) 44 4 []
                    ltac:(lia) ltac:(lia))).
    + vm_compute. discriminate.
    + vm_compute. discriminate.
  - apply (proj2 (copyLoop_terminates (openSource (SrcPath sampleWav)) 44 5 []
                    ltac:(lia) ltac:(lia))).
    + lia.
    + vm_compute. reflexivity.
Defined.

(** ** The prober *)


Lemma readUInt16LE_Ok (buf : Buffer) (offset v : Z) :
  readUInt16LE buf offset = Ok v ->
  v = u16le buf offset /\ 0 <= offset /\ offset + 2 <= blen buf.
Proof.
  unfold readUInt16LE. destruct (0 <=? offset) eqn:E1; [|done].
  destruct (offset + 2 <=? blen buf) eqn:E2; [|done].
  simpl. intros [= <-]. lia.
Qed.

Lemma readUInt32LE_Ok (buf : Buffer) (offset v : Z) :
  readUInt32LE buf offset = Ok v ->
  v = u32le buf offset /\ 0 <= offset /\ offset + 4 <= blen buf.
Proof.
  unfold readUInt32LE. destruct (0 <=? offset) eqn:E1; [|done].
  destruct (offset + 4 <=? blen buf) eqn:E2; [|done].
  simpl. intros [= <-]. lia.
Qed.

Lemma readUInt32LE_in_range (buf : Buffer) (offset : Z) :
  0 <= offset -> offset + 4 <= blen buf ->
  readUInt32LE buf offset = Ok (u32le buf offset).
Proof.
  intros H1 H2. unfold readUInt32LE.
  destruct (0 <=? offset) eqn:E1; [|lia].
  destruct (offset + 4 <=? blen buf) eqn:E2; [done|lia].
Qed.

Lemma readUInt16LE_in_range (buf : Buffer) (offset : Z) :
  0 <= offset -> offset + 2 <= blen buf ->
  readUInt16LE buf offset = Ok (u16le buf offset).
Proof.
  intros H1 H2. unfold readUInt16LE.
  destruct (0 <=? offset) eqn:E1; [|lia].
  destruct (offset + 2 <=? blen buf) eqn:E2; [done|lia].
Qed.

(** The chunk walk never runs out of the fuel [parseWavHeader] gives it. *)
Lemma walkChunks_fuel (fuel : nat) :
  forall buf offset st,
    0 <= offset -> blen buf - offset < 8 * Z.of_nat fuel + 8 ->
    walkChunks fuel buf offset st <> None.
Proof.
  induction fuel as [|fuel IH]; intros buf offset st Ho Hf; simpl.
  - destruct (offset + 8 <=? blen buf) eqn:E; [lia|done].
  - destruct (offset + 8 <=? blen buf) eqn:E; [|done].
    rewrite readUInt32LE_in_range by lia.
    pose proof (u32le_range buf (offset + 4)).
    repeat match goal with
           | |- context [match ?x with _ => _ end] => destruct x eqn:?
           end; try done; apply IH; lia.
Qed.

Lemma walkChunks_bounded (fuel : nat) :
  forall buf offset st st',
    walkChunks fuel buf offset st = Some (Ok (Some st')) ->
    wsBounded st -> wsBounded st'.
Proof.
  induction fuel as [|fuel IH]; intros buf offset st st' H Hb; simpl in H.
  - destruct (offset + 8 <=? blen buf); [done|]. by injection H as <-.
  - destruct (offset + 8 <=? blen buf); [|by injection H as <-].
    destruct (readUInt32LE buf (offset + 4)) as [size|] eqn:Es; [|done].
    apply readUInt32LE_Ok in Es as (-> & _ & _).
    pose proof (u32le_range buf (offset + 4)) as Hsz.
    destruct (String.eqb _ "fmt ").
    + destruct (readUInt16LE buf (offset + 8)) as [af|] eqn:E1; [|done].
      destruct (readUInt16LE buf (offset + 10)) as [ch|] eqn:E2; [|done].
      destruct (readUInt32LE buf (offset + 12)) as [sr|] eqn:E3; [|done].
      destruct (readUInt16LE buf (offset + 22)) as [bits|] eqn:E4; [|done].
      destruct (negb (af =? 1)); [done|].
      apply readUInt16LE_Ok in E2 as (-> & _ & _).
      apply readUInt32LE_Ok in E3 as (-> & _ & _).
      apply readUInt16LE_Ok in E4 as (-> & _ & _).
      apply IH in H; [done|].
      destruct Hb as (_ & _ & _ & Hd).
      pose proof (u16le_range buf (offset + 10)).
      pose proof (u32le_range buf (offset + 12)).
      pose proof (u16le_range buf (offset + 22)).
      unfold wsBounded; simpl. repeat (split; [lia|]). apply Hd.
    + destruct (String.eqb _ "data").
      * apply IH in H; [done|].
        destruct Hb as (H1 & H2 & H3 & Hd).
        unfold wsBounded; simpl. repeat (split; [lia|]). intros d [= <-]; lia.
      * by apply IH in H.
Qed.

Lemma parseWavHeader_Some (buf : Buffer) (w : WavProbeInfo) :
  parseWavHeader buf = Ok (Some w) ->
  0 < wav_sampleRate w < 2 ^ 32 /\ 0 < wav_channels w < 2 ^ 16
  /\ 0 < bitsPerSample w < 2 ^ 16
  /\ forall d, dataBytes w = Some d -> 0 <= d < 2 ^ 32.
Proof.
  unfold parseWavHeader.
  destruct (blen buf <? 44); [done|].
  destruct (negb (String.eqb _ "RIFF")); [done|].
  destruct (negb (String.eqb _ "WAVE")); [done|].
  destruct (walkChunks _ _ _ _) as [[[st|]|]|] eqn:Ew; try done.
  apply walkChunks_bounded in Ew.
  2:{ unfold wsBounded; simpl. repeat (split; [lia|]). done. }
  destruct (negb (fmtFound st)); [done|]. simpl.
  destruct (ws_sampleRate st =? 0) eqn:E1; [done|].
  destruct (ws_channels st =? 0) eqn:E2; [done|].
  destruct (ws_bitsPerSample st =? 0) eqn:E3; [done|].
  simpl. intros [= <-]. simpl.
  destruct Ew as (H1 & H2 & H3 & H4).
  apply Z.eqb_neq in E1, E2, E3. repeat split; try lia; by apply H4.
Qed.

Lemma land_mask_range (a : Z) (k : Z) :
  0 <= k -> 0 <= Z.land a (Z.ones k) < 2 ^ k.
Proof.
  intros Hk. rewrite Z.land_ones by lia. apply Z.mod_pos_bound. lia.
Qed.

Lemma bitrateTable_known (i b : Z) : bitrateTable i = Some b -> In b knownBitrates.
Proof.
  unfold bitrateTable, knownBitrates.
  destruct i as [|p|p]; try done.
  repeat (match goal with q : positive |- _ => destruct q end; try done);
    intros [= <-]; simpl; tauto.
Qed.

Lemma decodeFrameAt_Some (buf : Buffer) (start i : Z) (m : Mp3ProbeInfo) :
  decodeFrameAt buf start i = Some m ->
  isSync buf i = true
  /\ In (mp3_sampleRate m) knownSampleRates
  /\ (mp3_channels m = 1 \/ mp3_channels m = 2)
  /\ (forall b, bitrateKbps m = Some b -> In b knownBitrates)
  /\ vbr m = false /\ id3v2Bytes m = Some start.
Proof.
  unfold decodeFrameAt, isSync.
  destruct ((at_ buf i =? 255) && (Z.land (at_ buf (i + 1)) 224 =? 224)); [|done].
  destruct (negb _); [done|].
  destruct ((_ =? 15) || (Z.land (Z.shiftr (at_ buf (i + 2)) 2) 3 =? 3)) eqn:E; [done|].
  apply orb_false_iff in E as [_ E]. apply Z.eqb_neq in E.
  intros [= <-]. simpl. split; [done|].
  split.
  - pose proof (land_mask_range (Z.shiftr (at_ buf (i + 2)) 2) 2 ltac:(lia)) as Hr.
    change (Z.ones 2) with 3 in Hr. change (2 ^ 2) with 4 in Hr.
    set (idx := Z.land (Z.shiftr (at_ buf (i + 2)) 2) 3) in *.
    assert (Hi : idx = 0 \/ idx = 1 \/ idx = 2) by lia.
    unfold sampleRatesOf, knownSampleRates.
    destruct (_ =? 3); destruct Hi as [-> | [-> | ->]]; simpl; tauto.
  - split; [destruct (_ =? 3); tauto|].
    split; [|done]. intros b. apply bitrateTable_known.
Qed.

Lemma scanFrames_Some (n : nat) :
  forall buf start i m,
    scanFrames n buf start i = Some m ->
    exists j, i <= j < i + Z.of_nat n /\ decodeFrameAt buf start j = Some m
              /\ forall k, i <= k < j -> decodeFrameAt buf start k = None.
Proof.
  induction n as [|n IH]; intros buf start i m H; simpl in H; [done|].
  destruct (decodeFrameAt buf start i) as [m'|] eqn:E.
  - injection H as <-. exists i. split; [lia|]. split; [done|]. intros k Hk. lia.
  - apply IH in H as (j & Hj & Hd & Hbefore). exists j.
    split; [lia|]. split; [done|].
    intros k Hk. destruct (Z.eq_dec k i) as [->|]; [done|]. apply Hbefore. lia.
Qed.


Lemma headWindow_val : Z.of_nat headWindow = 8192.
Proof. vm_compute. reflexivity. Qed.

Lemma head_eq (src : AudioSource) :
  readBytes (openSource src) 0 8192 = headOf src.
Proof.
  rewrite readBytes_range by lia. change (Z.to_nat 0) with 0%nat. rewrite drop_0.
  reflexivity.
Qed.

(** From here on the window size is used through [headWindow_val] only. *)
Global Opaque headWindow.

Lemma probe_eq (src : AudioSource) : probe src = probeBuffer (headOf src).
Proof. unfold probe. by rewrite head_eq. Qed.

Lemma skipId3Size_nonneg (buf : Buffer) : 0 <= skipId3Size buf.
Proof.
  unfold skipId3Size.
  destruct (blen buf <? 10); [lia|]. destruct (negb _); [lia|].
  assert (Hl : forall a, 0 <= Z.land a 127).
  { intros a. apply Z.land_nonneg. lia. }
  pose proof (Hl (at_ buf 6)). pose proof (Hl (at_ buf 7)).
  pose proof (Hl (at_ buf 8)). pose proof (Hl (at_ buf 9)).
  assert (0 <= Z.lor (Z.lor (Z.lor (Z.shiftl (Z.land (at_ buf 6) 127) 21)
                                   (Z.shiftl (Z.land (at_ buf 7) 127) 14))
                            (Z.shiftl (Z.land (at_ buf 8) 127) 7))
                     (Z.land (at_ buf 9) 127)).
  { repeat (apply Z.lor_nonneg; split); try done; by apply Z.shiftl_nonneg. }
  lia.
Qed.




Lemma probeBuffer_Wav (head : Buffer) (w : WavProbeInfo) :
  probeBuffer head = Ok (Wav w) <-> parseWavHeader head = Ok (Some w).
Proof.
  unfold probeBuffer. destruct (parseWavHeader head) as [[w'|]|]; simpl.
  - split; by intros [= ->].
  - destruct (parseMp3Header _ _); split; done.
  - split; done.
Qed.

Lemma probeBuffer_Mp3 (head : Buffer) (m : Mp3ProbeInfo) :
  probeBuffer head = Ok (Mp3 m) <->
  parseWavHeader head = Ok None /\ parseMp3Header head (skipId3Size head) = Some m.
Proof.
  unfold probeBuffer. destruct (parseWavHeader head) as [[w'|]|]; simpl.
  - split; [done | by intros [? _]].
  - destruct (parseMp3Header _ _).
    + split; [by intros [= ->] | by intros [_ [= ->]]].
    + split; [done | by intros [_ ?]].
  - split; [done | by intros [? _]].
Qed.

Lemma parseMp3Header_Some (buf : Buffer) (start : Z) (m : Mp3ProbeInfo) :
  parseMp3Header buf start = Some m ->
  exists j, start <= j /\ j + 4 <= blen buf /\ j + 4 <= start + 4096
            /\ decodeFrameAt buf start j = Some m
            /\ forall k, start <= k < j -> decodeFrameAt buf start k = None.
Proof.
  unfold parseMp3Header. intros H.
  apply scanFrames_Some in H as (j & Hj & Hd & Hb).
  exists j. repeat split; try done; lia.
Qed.


(** C8. Whenever [probe] succeeds, the result has sampleRate > 0 and
    channels > 0 and every field of its variant in place: a WAV result
    carries non-zero u32/u16 parameters, an MP3 result a sample rate of the
    two tables, one or two channels, a bitrate of the table when present,
    the VBR flag and the ID3v2 size. *)
Theorem probe_success_invariant (src : AudioSource) (info : ProbeInfo) :
  probe src = Ok info ->
  0 < sampleRate info /\ 0 < channels info /\ fullyPopulated info.
Proof.
  rewrite probe_eq. destruct info as [w|m]; intros H.
  - apply probeBuffer_Wav, parseWavHeader_Some in H. simpl. intuition lia.
  - apply probeBuffer_Mp3 in H as [_ H].
    apply parseMp3Header_Some in H as (j & _ & _ & _ & H & _).
    apply decodeFrameAt_Some in H as (_ & Hsr & Hch & Hbr & Hv & Hid).
    simpl. repeat split; try done.
    + unfold knownSampleRates in Hsr. simpl in Hsr. intuition lia.
    + lia.
    + exists (skipId3Size (headOf src)). split; [done | apply skipId3Size_nonneg].
Qed.

Lemma probe_success_invariant_witness :
  probe (SrcBuffer sampleWav)
  = Ok (Wav {| wav_sampleRate := 44100; wav_channels := 1; bitsPerSample := 16;
               dataBytes := Some 4 |})
  /\ 0 < 44100 /\ 0 < 1.
Proof.
  assert (H : probe (SrcBuffer sampleWav)
              = Ok (Wav {| wav_sampleRate := 44100; wav_channels := 1;
                           bitsPerSample := 16; dataBytes := Some 4 |}))
    by (vm_compute; reflexivity).
  split; [exact H|].
  destruct (probe_success_invariant _ _ H) as (H1 & H2 & _). split; assumption.
Defined.

Lemma parseWavHeader_no_magic (head : Buffer) :
  hasRiffWave head = false -> parseWavHeader head = Ok None.
Proof.
  unfold hasRiffWave, parseWavHeader. intros H.
  destruct (blen head <? 44); [done|].
  destruct (String.eqb (toStringAscii head 0 4) "RIFF"); [|done].
  simpl in H. by rewrite H.
Qed.







(** ** Validation *)

Lemma wavParams_eqb (w w0 : WavProbeInfo) :
  negb (wav_sampleRate w =? wav_sampleRate w0)
  || negb (wav_channels w =? wav_channels w0)
  || negb (bitsPerSample w =? bitsPerSample w0) = false
  <-> wavParams w = wavParams w0.
Proof.
  unfold wavParams. rewrite !orb_false_iff, !negb_false_iff, !Z.eqb_eq.
  split; [intros [[-> ->] ->]; done | intros [= -> -> ->]; done].
Qed.

Lemma validateWav_homogeneous (w0 : WavProbeInfo) (srcs : list AudioSource) :
  homogeneousWav w0 srcs -> exists infos, validateWav w0 srcs = Ok infos.
Proof.
  induction srcs as [|s srcs IH]; intros H; simpl; [by eexists|].
  destruct (H s) as (w & Hp & Hw); [by left|]. rewrite Hp. simpl.
  apply wavParams_eqb in Hw. rewrite Hw.
  destruct IH as [infos ->]; [|by eexists].
  intros s' Hs'. apply H. by right.
Qed.








(** ** The WAV engine *)

Lemma Qfloor_frac (n : Z) (d : positive) : Qfloor (n # d) = n / Z.pos d.
Proof. reflexivity. Qed.

Lemma bytesPerMsOf_eq (w : WavProbeInfo) : bytesPerMsOf w = wavBytesPerMs w.
Proof.
  unfold bytesPerMsOf, wavBytesPerMs.
  unfold Qdiv, Qmult, Qinv, inject_Z. cbn [Qnum Qden].
  rewrite Qfloor_frac. f_equal. lia.
Qed.

Lemma checkInt_Z (v max : Z) :
  0 <= v <= max -> checkInt (inject_Z v) max = Ok v.
Proof.
  intros [H1 H2]. unfold checkInt.
  assert (E1 : Qle_bool 0 (inject_Z v) = true).
  { apply Qle_bool_iff. change 0%Q with (inject_Z 0). by rewrite <- Zle_Qle. }
  assert (E2 : Qle_bool (inject_Z v) (inject_Z max) = true).
  { apply Qle_bool_iff. by rewrite <- Zle_Qle. }
  rewrite E1, E2. cbn [andb]. by rewrite Qfloor_Z.
Qed.

Lemma checkInt_frac (n : Z) (d : positive) (max : Z) :
  0 <= n -> n <= max * Z.pos d -> checkInt (n # d) max = Ok (n / Z.pos d).
Proof.
  intros H1 H2. unfold checkInt.
  assert (E1 : Qle_bool 0 (n # d) = true).
  { apply Qle_bool_iff. unfold Qle. simpl. lia. }
  assert (E2 : Qle_bool (n # d) (inject_Z max) = true).
  { apply Qle_bool_iff. unfold Qle. simpl. lia. }
  by rewrite E1, E2.
Qed.

Lemma createWavHeader_canonical (total : Z) (w : WavProbeInfo) :
  0 <= wav_sampleRate w < 2 ^ 32 -> 0 <= wav_channels w < 2 ^ 16 ->
  0 <= bitsPerSample w < 2 ^ 16 ->
  0 <= total -> 36 + total <= 4294967295 ->
  wav_sampleRate w * wav_channels w * bitsPerSample w <= 4294967295 * 8 ->
  wav_channels w * bitsPerSample w <= 65535 * 8 ->
  createWavHeader total w
  = Ok (canonicalHeader total (wav_channels w) (wav_sampleRate w) (bitsPerSample w)).
Proof.
  intros Hsr Hch Hb Ht Htot Hbr Hba.
  unfold createWavHeader, writeUInt32LE, writeUInt16LE.
  rewrite (checkInt_Z (36 + total)) by lia. cbn [bind].
  change 16%Q with (inject_Z 16). rewrite (checkInt_Z 16) by lia. cbn [bind].
  change 1%Q with (inject_Z 1). rewrite (checkInt_Z 1) by lia. cbn [bind].
  rewrite (checkInt_Z (wav_channels w)) by lia. cbn [bind].
  rewrite (checkInt_Z (wav_sampleRate w)) by lia. cbn [bind].
  unfold Qdiv, Qmult, Qinv, inject_Z. cbn [Qnum Qden].
  rewrite checkInt_frac by nia. cbn [bind].
  rewrite checkInt_frac by nia. cbn [bind].
  fold (inject_Z (bitsPerSample w)). rewrite (checkInt_Z (bitsPerSample w)) by lia.
  cbn [bind].
  fold (inject_Z total). rewrite (checkInt_Z total) by lia. cbn [bind].
  unfold canonicalHeader, le32, le16. f_equal.
  replace (wav_sampleRate w * wav_channels w * (bitsPerSample w * 1))
    with (wav_sampleRate w * wav_channels w * bitsPerSample w) by lia.
  replace (wav_channels w * (bitsPerSample w * 1))
    with (wav_channels w * bitsPerSample w) by lia.
  reflexivity.
Qed.

Lemma FirstData_bounds (head : Buffer) (off start size : Z) :
  FirstData head off start size -> 0 <= off ->
  off + 8 <= start /\ start <= blen head /\ 0 <= size < 2 ^ 32.
Proof.
  induction 1 as [off Hg Hid | off start size Hg Hid Hrest IH]; intros Ho.
  - pose proof (u32le_range head (off + 4)). lia.
  - pose proof (u32le_range head (off + 4)). lia.
Qed.

(** The scan of [stitchWav] finds the first data chunk, and never runs out
    of the fuel it is given. *)
Lemma findData_FirstData (head : Buffer) (off start size : Z) :
  FirstData head off start size ->
  forall fuel, 0 <= off -> blen head - off < 8 * Z.of_nat fuel + 8 ->
               findData fuel head off = Some (Some (start, size)).
Proof.
  induction 1 as [off Hg Hid | off start size Hg Hid Hrest IH]; intros fuel Ho Hf.
  - destruct fuel as [|fuel]; [lia|]. simpl.
    destruct (off + 8 <=? blen head) eqn:E; [|lia]. by rewrite Hid.
  - destruct fuel as [|fuel]; [lia|]. simpl.
    destruct (off + 8 <=? blen head) eqn:E; [|lia].
    apply String.eqb_neq in Hid. rewrite Hid.
    pose proof (u32le_range head (off + 4)). apply IH; lia.
Qed.

Lemma findData_fuel (fuel : nat) :
  forall head off, 0 <= off -> blen head - off < 8 * Z.of_nat fuel + 8 ->
                   findData fuel head off <> None.
Proof.
  induction fuel as [|fuel IH]; intros head off Ho Hf; simpl.
  - destruct (off + 8 <=? blen head) eqn:E; [lia|done].
  - destruct (off + 8 <=? blen head) eqn:E; [|done].
    destruct (String.eqb _ _); [done|].
    pose proof (u32le_range head (off + 4)). apply IH; lia.
Qed.

Lemma findData_None_or_FirstData (fuel : nat) :
  forall head off start size,
    findData fuel head off = Some (Some (start, size)) -> FirstData head off start size.
Proof.
  induction fuel as [|fuel IH]; intros head off start size H; simpl in H.
  - by destruct (off + 8 <=? blen head).
  - destruct (off + 8 <=? blen head) eqn:E; [|done]. apply Z.leb_le in E.
    destruct (String.eqb _ _) eqn:Eid.
    + injection H as <- <-. apply FirstData_here; [done|]. by apply String.eqb_eq.
    + apply FirstData_skip; [done | by apply String.eqb_neq | by apply IH].
Qed.

Section WavParts.
Variables (gapMs bytesPerMs : Z).

Lemma locateParts_spec (srcs : list AudioSource) (chunks : list (Z * Z)) :
  Forall2 DataChunk srcs chunks ->
  forall n i total,
    n = i + Z.of_nat (length srcs) ->
    locateParts n gapMs bytesPerMs i (map openSource srcs) total
    = Ok (zip_with mkPart srcs chunks,
          total + sumSizes chunks
          + (if 0 <? gapMs
             then Z.of_nat (length srcs - 1) * (bytesPerMs * gapMs) else 0)).
Proof.
  induction 1 as [|s [st sz] srcs chunks Hc Hrest IH]; intros n i total Hn.
  - simpl. f_equal. f_equal. destruct (0 <? gapMs); lia.
  - cbn [map locateParts]. rewrite head_eq.
    rewrite (findData_FirstData _ _ _ _ Hc).
    2:{ lia. }
    2:{ unfold blen. lia. }
    rewrite (IH n (i + 1)) by (cbn [length] in Hn; lia). cbn [bind zip_with].
    f_equal. f_equal. cbn [sumSizes fold_right snd length] in *.
    fold (sumSizes chunks).
    set (X := bytesPerMs * gapMs).
    destruct (Z.ltb_spec i (n - 1)) as [Ei|Ei]; destruct (0 <? gapMs) eqn:Eg;
      cbn [andb]; destruct srcs; cbn [length] in *;
      rewrite ?Nat.sub_succ, ?Nat.sub_0_r, ?Nat2Z.inj_succ; try lia.
Qed.

Lemma bufferParts_spec (srcs : list AudioSource) (chunks : list (Z * Z)) :
  Forall2 DataChunk srcs chunks ->
  forall n i,
    n = i + Z.of_nat (length srcs) ->
    concat (bufferParts n gapMs bytesPerMs i (zip_with mkPart srcs chunks))
    = interleave (if 0 <? gapMs then alloc (bytesPerMs * gapMs) else [])
                 (zip_with payloadOf srcs chunks).
Proof.
  induction 1 as [|s [st sz] srcs chunks Hc Hrest IH]; intros n i Hn; [done|].
  cbn [zip_with bufferParts concat interleave].
  apply FirstData_bounds in Hc as (H1 & H2 & H3); [|lia]. simpl in H1, H2, H3.
  cbn [mkPart opened start length_ fst snd].
  rewrite readBytes_range by lia.
  change (take (Z.to_nat sz) (drop (Z.to_nat st) (contents (openSource s))))
    with (payloadOf s (st, sz)).
  f_equal. rewrite concat_app.
  rewrite (IH n (i + 1)) by (cbn [length] in Hn; lia).
  destruct Hrest as [|s' c' srcs chunks Hc' Hrest].
  - cbn [zip_with interleave length] in *.
    destruct (i <? n - 1) eqn:Ei; [lia|]. done.
  - cbn [zip_with length] in *.
    destruct (i <? n - 1) eqn:Ei; [|lia]. cbn [andb].
    destruct (0 <? gapMs); cbn [concat]; by rewrite ?app_nil_r.
Qed.
End WavParts.






Lemma probe_Wav_bounds (s : AudioSource) (w : WavProbeInfo) :
  probe s = Ok (Wav w) ->
  0 < wav_sampleRate w < 2 ^ 32 /\ 0 < wav_channels w < 2 ^ 16
  /\ 0 < bitsPerSample w < 2 ^ 16.
Proof.
  rewrite probe_eq. intros H. apply probeBuffer_Wav, parseWavHeader_Some in H.
  tauto.
Qed.




(** ** What a successful WAV stitch implies *)

Lemma validateWav_Ok (w0 : WavProbeInfo) (srcs : list AudioSource) (infos : list WavProbeInfo) :
  validateWav w0 srcs = Ok infos -> homogeneousWav w0 srcs.
Proof.
  revert infos. induction srcs as [|s srcs IH]; intros infos H x Hx; [destruct Hx|].
  simpl in H. destruct (probe s) as [[w|m]|e] eqn:Ep; try done. simpl in H.
  destruct (negb _ || negb _ || negb _) eqn:E; [done|].
  apply wavParams_eqb in E.
  destruct (validateWav w0 srcs) as [infos'|] eqn:Ev; [|done].
  destruct Hx as [<-|Hx]; [by exists w | by eapply IH].
Qed.

Lemma locateParts_Ok (gapMs bytesPerMs : Z) (srcs : list AudioSource) :
  forall n i total parts total',
    locateParts n gapMs bytesPerMs i (map openSource srcs) total = Ok (parts, total') ->
    exists chunks, Forall2 DataChunk srcs chunks.
Proof.
  induction srcs as [|s srcs IH]; intros n i total parts total' H.
  - exists []. constructor.
  - cbn [map locateParts] in H. rewrite head_eq in H.
    destruct (findData _ _ 12) as [[[st sz]|]|] eqn:Ef; try done.
    destruct (locateParts _ _ _ _ _ _) as [[ps t]|] eqn:El; [|done].
    apply IH in El as [chunks Hc]. exists ((st, sz) :: chunks).
    constructor; [|done]. by eapply findData_None_or_FirstData.
Qed.

Lemma checkInt_Z_Ok (z max v : Z) :
  checkInt (inject_Z z) max = Ok v -> v = z /\ 0 <= z <= max.
Proof.
  unfold checkInt.
  destruct (Qle_bool 0 (inject_Z z)) eqn:E1; [|done].
  destruct (Qle_bool (inject_Z z) (inject_Z max)) eqn:E2; [|done].
  cbn [andb]. rewrite Qfloor_Z. intros [= <-].
  apply Qle_bool_iff in E1, E2. change 0%Q with (inject_Z 0) in E1.
  rewrite <- Zle_Qle in E1, E2. lia.
Qed.

Lemma createWavHeader_Ok (total : Z) (w : WavProbeInfo) (h : Buffer) :
  createWavHeader total w = Ok h ->
  h = canonicalHeader total (wav_channels w) (wav_sampleRate w) (bitsPerSample w)
  /\ 0 <= total /\ 36 + total <= 4294967295.
Proof.
  unfold createWavHeader, writeUInt32LE, writeUInt16LE.
  destruct (checkInt (inject_Z (36 + total)) _) as [v1|] eqn:E1; [|cbn [bind]; intros; discriminate]. cbn [bind].
  destruct (checkInt 16 _) as [v2|] eqn:E2; [|cbn [bind]; intros; discriminate]. cbn [bind].
  destruct (checkInt 1 _) as [v3|] eqn:E3; [|cbn [bind]; intros; discriminate]. cbn [bind].
  destruct (checkInt (inject_Z (wav_channels w)) _) as [v4|] eqn:E4; [|cbn [bind]; intros; discriminate]. cbn [bind].
  destruct (checkInt (inject_Z (wav_sampleRate w)) _) as [v5|] eqn:E5; [|cbn [bind]; intros; discriminate]. cbn [bind].
  destruct (checkInt (_ * _ * _)%Q _) as [v6|] eqn:E6; [|cbn [bind]; intros; discriminate]. cbn [bind].
  destruct (checkInt (inject_Z (wav_channels w) * _)%Q _) as [v7|] eqn:E7; [|cbn [bind]; intros; discriminate]. cbn [bind].
  destruct (checkInt (inject_Z (bitsPerSample w)) _) as [v8|] eqn:E8; [|cbn [bind]; intros; discriminate]. cbn [bind].
  destruct (checkInt (inject_Z total) _) as [v9|] eqn:E9; [|cbn [bind]; intros; discriminate]. cbn [bind].
  intros [= <-].
  apply checkInt_Z_Ok in E1 as [-> ?], E4 as [-> ?], E5 as [-> ?], E8 as [-> ?],
        E9 as [-> ?].
  change 16%Q with (inject_Z 16) in E2. apply checkInt_Z_Ok in E2 as [-> ?].
  change 1%Q with (inject_Z 1) in E3. apply checkInt_Z_Ok in E3 as [-> ?].
  assert (Hv6 : v6 = wav_sampleRate w * wav_channels w * bitsPerSample w / 8).
  { unfold checkInt in E6. destruct (_ && _); [|done]. injection E6 as <-.
    unfold Qdiv, Qmult, Qinv, inject_Z. cbn [Qnum Qden].
    f_equal. lia. }
  assert (Hv7 : v7 = wav_channels w * bitsPerSample w / 8).
  { unfold checkInt in E7. destruct (_ && _); [|done]. injection E7 as <-.
    unfold Qdiv, Qmult, Qinv, inject_Z. cbn [Qnum Qden].
    f_equal. lia. }
  subst v6 v7. split; [reflexivity | lia].
Qed.

(** ** Reading back a canonical header *)

Lemma at_app_l (a b : Buffer) (i : Z) :
  0 <= i -> i < blen a -> at_ (a ++ b) i = at_ a i.
Proof.
  intros H1 H2. unfold at_. rewrite app_nth1; [done|]. unfold blen in H2. lia.
Qed.

Lemma u16le_app_l (a b : Buffer) (off : Z) :
  0 <= off -> off + 2 <= blen a -> u16le (a ++ b) off = u16le a off.
Proof. intros H1 H2. unfold u16le. by rewrite !at_app_l by lia. Qed.

Lemma u32le_app_l (a b : Buffer) (off : Z) :
  0 <= off -> off + 4 <= blen a -> u32le (a ++ b) off = u32le a off.
Proof. intros H1 H2. unfold u32le. by rewrite !at_app_l by lia. Qed.

Lemma toStringAscii_app_l (a b : Buffer) (s e : Z) :
  0 <= s -> e <= blen a -> toStringAscii (a ++ b) s e = toStringAscii a s e.
Proof.
  intros H1 H2. unfold toStringAscii. rewrite blen_app.
  pose proof (blen_nonneg b).
  rewrite !(Z.min_l e) by lia. rewrite Z.max_r by lia.
  destruct (Z_le_gt_dec s e) as [Hle|Hgt].
  - rewrite drop_app_le by (unfold blen in H2; lia).
    rewrite take_app_le; [done|]. rewrite length_drop. unfold blen in H2. lia.
  - replace (Z.to_nat (e - s)) with 0%nat by lia. done.
Qed.

Lemma le16_decode (v : Z) :
  0 <= v < 2 ^ 16 -> byteZ (u8 v) + byteZ (u8 (Z.shiftr v 8)) * 2 ^ 8 = v.
Proof.
  intros Hv. rewrite !byteZ_u8, Z.shiftr_div_pow2 by lia.
  change (2 ^ 8) with 256. change (2 ^ 16) with 65536 in Hv.
  Z.div_mod_to_equations. lia.
Qed.

Lemma le32_decode (v : Z) :
  0 <= v < 2 ^ 32 ->
  byteZ (u8 v) + byteZ (u8 (Z.shiftr v 8)) * 2 ^ 8
  + byteZ (u8 (Z.shiftr v 16)) * 2 ^ 16 + byteZ (u8 (Z.shiftr v 24)) * 2 ^ 24 = v.
Proof.
  intros Hv. rewrite !byteZ_u8, !Z.shiftr_div_pow2 by lia.
  change (2 ^ 8) with 256. change (2 ^ 16) with 65536.
  change (2 ^ 24) with 16777216. change (2 ^ 32) with 4294967296 in Hv.
  Z.div_mod_to_equations. lia.
Qed.

Section CanonicalHeader.
Variables (total channels sampleRate bits : Z).
Let hdr := canonicalHeader total channels sampleRate bits.

Lemma hdr_len : blen hdr = 44.
Proof. reflexivity. Qed.

Lemma hdr_riff : toStringAscii hdr 0 4 = "RIFF"%string.
Proof. reflexivity. Qed.

Lemma hdr_wave : toStringAscii hdr 8 12 = "WAVE"%string.
Proof. reflexivity. Qed.

Lemma hdr_fmt : toStringAscii hdr 12 16 = "fmt "%string.
Proof. reflexivity. Qed.

Lemma hdr_data : toStringAscii hdr 36 40 = "data"%string.
Proof. reflexivity. Qed.

Lemma hdr_fmt_size : u32le hdr 16 = 16.
Proof. reflexivity. Qed.

Lemma hdr_format : u16le hdr 20 = 1.
Proof. reflexivity. Qed.

Lemma hdr_channels : 0 <= channels < 2 ^ 16 -> u16le hdr 22 = channels.
Proof. intros H. apply (le16_decode _ H). Qed.

Lemma hdr_sampleRate : 0 <= sampleRate < 2 ^ 32 -> u32le hdr 24 = sampleRate.
Proof. intros H. apply (le32_decode _ H). Qed.

Lemma hdr_bits : 0 <= bits < 2 ^ 16 -> u16le hdr 34 = bits.
Proof. intros H. apply (le16_decode _ H). Qed.

Lemma hdr_total : 0 <= total < 2 ^ 32 -> u32le hdr 40 = total.
Proof. intros H. apply (le32_decode _ H). Qed.
End CanonicalHeader.

Lemma walkChunks_fmt (f : nat) (buf : Buffer) (off : Z) (st : WalkState) :
  0 <= off -> off + 24 <= blen buf ->
  toStringAscii buf off (off + 4) = "fmt "%string -> u16le buf (off + 8) = 1 ->
  walkChunks (S f) buf off st
  = walkChunks f buf (off + 8 + u32le buf (off + 4))
      {| fmtFound := true; ws_dataBytes := ws_dataBytes st;
         ws_sampleRate := u32le buf (off + 12);
         ws_channels := u16le buf (off + 10);
         ws_bitsPerSample := u16le buf (off + 22) |}.
Proof.
  intros H1 H2 Hid Hf. cbn [walkChunks].
  destruct (off + 8 <=? blen buf) eqn:E; [|lia].
  rewrite Hid. rewrite !readUInt32LE_in_range, !readUInt16LE_in_range by lia.
  rewrite Hf. reflexivity.
Qed.

Lemma walkChunks_data (f : nat) (buf : Buffer) (off : Z) (st : WalkState) :
  0 <= off -> off + 8 <= blen buf ->
  toStringAscii buf off (off + 4) = "data"%string ->
  walkChunks (S f) buf off st
  = walkChunks f buf (off + 8 + u32le buf (off + 4))
      {| fmtFound := fmtFound st; ws_dataBytes := Some (u32le buf (off + 4));
         ws_sampleRate := ws_sampleRate st; ws_channels := ws_channels st;
         ws_bitsPerSample := ws_bitsPerSample st |}.
Proof.
  intros H1 H2 Hid. cbn [walkChunks].
  destruct (off + 8 <=? blen buf) eqn:E; [|lia].
  rewrite Hid. rewrite !readUInt32LE_in_range by lia. reflexivity.
Qed.

Lemma walkChunks_end (f : nat) (buf : Buffer) (off : Z) (st : WalkState) :
  blen buf < off + 8 -> walkChunks f buf off st = Some (Ok (Some st)).
Proof.
  intros H. destruct f; cbn [walkChunks];
    destruct (off + 8 <=? blen buf) eqn:E; try lia; done.
Qed.

(** The prober reads the parameters back from a canonical header that is
    followed by no more bytes than it announces. *)
Lemma parseWavHeader_canonical (total channels sampleRate bits : Z) (body : Buffer) :
  0 < channels < 2 ^ 16 -> 0 < sampleRate < 2 ^ 32 -> 0 < bits < 2 ^ 16 ->
  0 <= total < 2 ^ 32 -> blen body <= total ->
  parseWavHeader (canonicalHeader total channels sampleRate bits ++ body)
  = Ok (Some {| wav_sampleRate := sampleRate; wav_channels := channels;
                bitsPerSample := bits; dataBytes := Some total |}).
Proof.
  intros Hch Hsr Hb Ht Hbody.
  pose proof (hdr_len total channels sampleRate bits) as Hlen.
  pose proof (blen_nonneg body) as Hb0.
  unfold parseWavHeader. rewrite blen_app, Hlen.
  destruct (44 + blen body <? 44) eqn:E; [lia|].
  rewrite !toStringAscii_app_l by lia.
  rewrite hdr_riff, hdr_wave.
  change (negb ("RIFF" =? "RIFF")%string) with false.
  change (negb ("WAVE" =? "WAVE")%string) with false. cbv iota.
  assert (Hfuel : length (canonicalHeader total channels sampleRate bits ++ body)
                  = S (S (length body + 42))).
  { rewrite length_app. unfold blen in Hlen. lia. }
  rewrite Hfuel.
  rewrite walkChunks_fmt; try (rewrite ?blen_app, ?Hlen; lia).
  2:{ rewrite toStringAscii_app_l by lia. apply hdr_fmt. }
  2:{ rewrite u16le_app_l by lia. apply hdr_format. }
  rewrite !u32le_app_l, !u16le_app_l by lia.
  change (12 + 4) with 16. change (12 + 12) with 24. change (12 + 10) with 22.
  change (12 + 22) with 34.
  rewrite hdr_fmt_size, hdr_sampleRate, hdr_channels, hdr_bits by lia.
  change (12 + 8 + 16) with 36.
  rewrite walkChunks_data; try (rewrite ?blen_app, ?Hlen; lia).
  2:{ rewrite toStringAscii_app_l by lia. apply hdr_data. }
  rewrite !u32le_app_l by lia. change (36 + 4) with 40.
  rewrite hdr_total by lia.
  rewrite walkChunks_end by (rewrite blen_app, Hlen; lia).
  cbn [fmtFound ws_sampleRate ws_channels ws_bitsPerSample ws_dataBytes negb orb].
  destruct (sampleRate =? 0) eqn:E1; [lia|].
  destruct (channels =? 0) eqn:E2; [lia|].
  destruct (bits =? 0) eqn:E3; [lia|]. reflexivity.
Qed.

Lemma blen_payloadOf_le (s : AudioSource) (c : Z * Z) :
  DataChunk s c -> blen (payloadOf s c) <= snd c.
Proof.
  intros Hc. unfold DataChunk in Hc. apply FirstData_bounds in Hc; [|lia].
  unfold payloadOf, payload, blen. rewrite length_take. lia.
Qed.

Lemma blen_interleave_le (gap : Buffer) (srcs : list AudioSource) (chunks : list (Z * Z)) :
  Forall2 DataChunk srcs chunks ->
  blen (interleave gap (zip_with payloadOf srcs chunks))
  <= sumSizes chunks + Z.of_nat (length srcs - 1) * blen gap.
Proof.
  induction 1 as [|s c srcs chunks Hc Hrest IH]; [done|].
  cbn [zip_with interleave sumSizes fold_right length]. fold (sumSizes chunks).
  rewrite blen_app. pose proof (blen_payloadOf_le _ _ Hc).
  destruct Hrest as [|s' c' srcs chunks Hc' Hrest].
  - cbn. unfold blen at 2. simpl. lia.
  - cbn [zip_with length] in *. rewrite blen_app.
    rewrite !Nat.sub_succ, !Nat.sub_0_r, Nat2Z.inj_succ in *. lia.
Qed.

(** A buffer-mode [stitchWav] that returns has validated homogeneous WAV
    sources, located a data chunk in each, and returns the canonical header
    followed by the payloads and gaps. *)
Lemma stitchWav_buffer_Ok (fuel : nat) (srcs : list AudioSource) (opts : StitchOptions)
    (out : Buffer) (wr : option Buffer) :
  stitchWav fuel srcs opts = Some {| returned := Ok (Some out); written := wr |} ->
  exists s0 rest w0 chunks,
    srcs = s0 :: rest /\ probe s0 = Ok (Wav w0) /\ homogeneousWav w0 srcs
    /\ Forall2 DataChunk srcs chunks
    /\ let g := default 0 (gapMs opts) in
       let gapBytes := if 0 <? g then wavBytesPerMs w0 * g else 0 in
       let total := sumSizes chunks + Z.of_nat (length srcs - 1) * gapBytes in
       0 <= gapBytes /\ 0 <= total /\ 36 + total <= 4294967295
       /\ out = canonicalHeader total (wav_channels w0) (wav_sampleRate w0)
                  (bitsPerSample w0)
                ++ interleave (alloc gapBytes) (zip_with payloadOf srcs chunks).
Proof.
  unfold stitchWav. intros H.
  destruct srcs as [|s0 rest] eqn:Es; [done|]. rewrite <- Es in *.
  destruct (probe s0) as [[w0|m]|e] eqn:Ep; try done.
  destruct (validateWav w0 srcs) as [infos|] eqn:Ev; [|done].
  apply validateWav_Ok in Ev.
  destruct (locateParts _ _ _ _ _ _) as [[parts total]|] eqn:El; [|done].
  destruct (locateParts_Ok _ _ _ _ _ _ _ _ El) as [chunks Hc].
  rewrite (locateParts_spec _ _ _ _ Hc) in El by (rewrite length_map; lia).
  injection El as <- <-.
  destruct (createWavHeader _ w0) as [hdr|] eqn:Eh; [|done].
  apply createWavHeader_Ok in Eh as (-> & Ht0 & Ht1).
  destruct (output opts) as [|outPath].
  2:{ destruct (String.eqb outPath ""); [done|]. by destruct (fileParts _ _ _ _ _ _ _). }
  injection H as <- <-.
  exists s0, rest, w0, chunks. split; [done|]. split; [done|]. split; [done|].
  split; [done|]. cbv zeta.
  rewrite bytesPerMsOf_eq in *.
  pose proof (probe_Wav_bounds _ _ Ep) as (B1 & B2 & B3).
  assert (Hbpm : 0 <= wavBytesPerMs w0) by (unfold wavBytesPerMs; apply Z.div_pos; nia).
  set (g := default 0 (gapMs opts)) in *.
  cbn [concat].
  rewrite (bufferParts_spec _ _ _ _ Hc).
  2:{ rewrite length_zip_with. apply Forall2_length in Hc. lia. }
  destruct (Z.ltb_spec 0 g) as [Hg|Hg].
  - split; [nia|]. replace (0 + sumSizes chunks
                            + Z.of_nat (length srcs - 1) * (wavBytesPerMs w0 * g))
      with (sumSizes chunks + Z.of_nat (length srcs - 1) * (wavBytesPerMs w0 * g))
      in * by lia.
    done.
  - split; [lia|]. rewrite Z.mul_0_r.
    replace (0 + sumSizes chunks + 0) with (sumSizes chunks + 0) in * by lia.
    done.
Qed.

Lemma take_head_app (hdr body : Buffer) :
  blen hdr = 44 ->
  exists body', take headWindow (hdr ++ body) = hdr ++ body'
                /\ blen body' <= blen body.
Proof.
  intros H. exists (take (headWindow - length hdr) body).
  pose proof headWindow_val.
  split.
  - rewrite take_app. f_equal. apply take_ge. unfold blen in H. lia.
  - unfold blen. rewrite length_take. lia.
Qed.


(** ** The MP3 engine *)

Lemma scanSync_Some (n : nat) :
  forall buf i j,
    scanSync n buf i = Some j ->
    i <= j < i + Z.of_nat n /\ isSync buf j = true
    /\ forall k, i <= k < j -> isSync buf k = false.
Proof.
  induction n as [|n IH]; intros buf i j H; simpl in H; [done|].
  destruct (isSync buf i) eqn:E.
  - injection H as <-. split; [lia|]. split; [done|]. intros k Hk. lia.
  - apply IH in H as (Hj & Hs & Hb). split; [lia|]. split; [done|].
    intros k Hk. destruct (Z.eq_dec k i) as [->|]; [done|]. apply Hb. lia.
Qed.

Lemma scanSync_first (n : nat) :
  forall buf i j,
    i <= j < i + Z.of_nat n -> isSync buf j = true ->
    (forall k, i <= k < j -> isSync buf k = false) ->
    scanSync n buf i = Some j.
Proof.
  induction n as [|n IH]; intros buf i j Hj Hs Hb; [lia|]. simpl.
  destruct (Z.eq_dec i j) as [->|Hne]; [by rewrite Hs|].
  rewrite Hb by lia. apply IH; [lia | done |]. intros k Hk. apply Hb. lia.
Qed.


Lemma findFirstFrameOffset_FirstSync (s : AudioSource) (off : Z) :
  findFirstFrameOffset (headOf s) (skipId3Size (headOf s)) = Some off <-> FirstSync s off.
Proof.
  unfold findFirstFrameOffset, FirstSync. cbv zeta. split.
  - intros H. apply scanSync_Some in H as (Hj & Hs & Hb).
    split; [lia|]. split; [lia|]. done.
  - intros (H1 & H2 & H3 & H4). apply scanSync_first; [lia | done | done].
Qed.


Lemma blen_headOf (s : AudioSource) : blen (headOf s) <= blen (bytesOf s).
Proof. unfold headOf, blen. rewrite length_take. lia. Qed.



Section Mp3Parts.
Variables (env : Env) (firstInfo : Mp3ProbeInfo) (opts : StitchOptions) (sil : Buffer).
Let g := default 0 (gapMs opts).
Let r := default nearest (gapRounding opts).

End Mp3Parts.

Lemma Qceiling_frac (n : Z) (d : positive) : Qceiling (n # d) = - (- n / Z.pos d).
Proof. reflexivity. Qed.

Lemma frameDuration_eq (m : Mp3ProbeInfo) (p : positive) :
  mp3_sampleRate m = Z.pos p -> (estimateFrameDurationMs m == 1152000 # p)%Q.
Proof.
  intros H. unfold estimateFrameDurationMs. rewrite H.
  unfold Qeq, Qdiv, Qmult, Qinv, inject_Z. cbn [Qnum Qden]. lia.
Qed.

Lemma framesExact_eq (g : Z) (p : positive) :
  (inject_Z g / (1152000 # p) == (g * Z.pos p) # 1152000)%Q.
Proof.
  unfold Qeq, Qdiv, Qmult, Qinv, inject_Z. cbn [Qnum Qden]. lia.
Qed.

Lemma framesExact_half_eq (g : Z) (p : positive) :
  (inject_Z g / (1152000 # p) + (1 # 2) == (2 * g * Z.pos p + 1152000) # 2304000)%Q.
Proof.
  unfold Qeq, Qdiv, Qmult, Qinv, Qplus, inject_Z. cbn [Qnum Qden]. lia.
Qed.

Lemma coveredDuration_eq (frames : Z) (p : positive) :
  (inject_Z frames * (1152000 # p) / 100 == (frames * 11520) # p)%Q.
Proof.
  unfold Qeq, Qdiv, Qmult, Qinv, inject_Z. cbn [Qnum Qden]. lia.
Qed.

(** The gap arithmetic of the engine, carried out in exact rationals, is the
    integer arithmetic of [gapFrames] and [silenceCopies]. *)
Lemma gapRepeats_eq (m : Mp3ProbeInfo) (g : Z) (r : GapRounding) :
  0 < mp3_sampleRate m ->
  gapRepeats m g r = silenceCopies (mp3_sampleRate m) g r.
Proof.
  intros Hsr. destruct (mp3_sampleRate m) as [|p|p] eqn:E; try lia.
  pose proof (frameDuration_eq m p E) as Hfd.
  unfold gapRepeats, silenceCopies, gapFrames, round.
  assert (Hframes :
            match r with
            | nearest => Qfloor (inject_Z g / estimateFrameDurationMs m + (1 # 2))
            | floor => Qfloor (inject_Z g / estimateFrameDurationMs m)
            | ceil => Qceiling (inject_Z g / estimateFrameDurationMs m)
            end
            = match r with
              | nearest => (2 * g * Z.pos p + 1152000) / 2304000
              | floor => g * Z.pos p / 1152000
              | ceil => - (- (g * Z.pos p) / 1152000)
              end).
  { destruct r.
    - rewrite (Qfloor_comp _ ((2 * g * Z.pos p + 1152000) # 2304000)); [done|].
      rewrite Hfd. apply framesExact_half_eq.
    - rewrite (Qfloor_comp _ ((g * Z.pos p) # 1152000)); [done|].
      rewrite Hfd. apply framesExact_eq.
    - rewrite (Qceiling_comp _ ((g * Z.pos p) # 1152000)); [done|].
      rewrite Hfd. apply framesExact_eq. }
  rewrite Hframes. set (x := match r with nearest => _ | floor => _ | ceil => _ end).
  rewrite (Z.max_comm x 0).
  set (frames := Z.max 0 x).
  destruct (Z.ltb_spec 0 frames); destruct (Z.eqb_spec frames 0); try lia.
  f_equal.
  rewrite (Qceiling_comp _ ((frames * 11520) # p)); [done|].
  rewrite Hfd. apply coveredDuration_eq.
Qed.








Lemma neg_div_ceil (a b : Z) : 0 < b -> a <= - (- a / b) * b /\ (- (- a / b) - 1) * b < a.
Proof.
  intros Hb. pose proof (Z.div_mod (- a) b ltac:(lia)).
  pose proof (Z.mod_pos_bound (- a) b Hb). nia.
Qed.



(** ** The silence resolver *)

(** C10. With no caller-supplied clip, the resolver looks the bundled
    catalog up under (sampleRate, mono when channels = 1 and stereo for every
    other count, bitrateKbps or 128 when the probe gave none); it fails with
    the asset-not-found error exactly when the catalog has no entry under
    that key, so a missing bitrate alone never makes it fail. *)
Theorem loadSilenceAsset_default_key (env : Env) (info : Mp3ProbeInfo)
    (opts : StitchOptions) :
  silence opts = None ->
  let mode := if mp3_channels info =? 1 then mono else stereo in
  let key := default 128 (bitrateKbps info) in
  (mp3_channels info <> 1 -> mode = stereo)
  /\ (bitrateKbps info = None -> key = 128)
  /\ loadSilenceAsset env info opts
     = match asset env (mp3_sampleRate info) mode key with
       | Some b => Ok b
       | None => Err (SilenceAssetNotFound (mp3_sampleRate info) mode key)
       end.
Proof.
  intros Hs mode key. split; [|split].
  - intros Hc. unfold mode. by destruct (Z.eqb_spec (mp3_channels info) 1).
  - intros Hb. unfold key. by rewrite Hb.
  - unfold loadSilenceAsset. rewrite Hs. fold mode key.
    by destruct (asset env (mp3_sampleRate info) mode key).
Qed.

Lemma loadSilenceAsset_default_key_witness :
  probe (SrcBuffer freeFormat)
  = Ok (Mp3 {| mp3_sampleRate := 44100; mp3_channels := 2; bitrateKbps := None;
               vbr := false; id3v2Bytes := Some 0 |})
  /\ loadSilenceAsset oneAsset
       {| mp3_sampleRate := 44100; mp3_channels := 2; bitrateKbps := None;
          vbr := false; id3v2Bytes := Some 0 |} (options 100 OutBuffer)
     = Ok clip
  /\ stitchMp3 oneAsset [SrcBuffer freeFormat; SrcBuffer freeFormat] (options 100 OutBuffer)
     = {| returned := Ok (Some (freeFormat ++ clip ++ clip ++ freeFormat));
          written := None |}.
Proof.
  split; [vm_compute; reflexivity|]. split; [|vm_compute; reflexivity].
  rewrite (proj2 (proj2 (loadSilenceAsset_default_key oneAsset _ (options 100 OutBuffer)
                           eq_refl))).
  vm_compute. reflexivity.
Defined.

(** ** Probing the output of the MP3 engine *)






Lemma skipId3Size_app_l (a b : Buffer) :
  10 <= blen a -> skipId3Size (a ++ b) = skipId3Size a.
Proof.
  intros H. unfold skipId3Size. rewrite blen_app. pose proof (blen_nonneg b).
  destruct (blen a + blen b <? 10) eqn:E1; [lia|].
  destruct (blen a <? 10) eqn:E2; [lia|].
  rewrite toStringAscii_app_l by lia. by rewrite !at_app_l by lia.
Qed.


Lemma at_take (n : nat) (l : Buffer) (i : Z) :
  0 <= i -> i < Z.of_nat n -> at_ (take n l) i = at_ l i.
Proof.
  intros H1 H2. unfold at_. rewrite nth_firstn.
  destruct (Nat.ltb_spec (Z.to_nat i) n); [done|lia].
Qed.


Lemma byteZ_255 (b : byte) : byteZ b = 255 -> b = xff.
Proof.
  unfold byteZ. intros H. assert (E : Byte.to_N b = 255%N) by lia.
  pose proof (Byte.of_to_N b) as Hb. rewrite E in Hb. by injection Hb as <-.
Qed.

(** A buffer that starts with 0xFF decodes to no ASCII literal of the
    sources: its first character is DEL. *)
Lemma toStringAscii_ff (buf : Buffer) (e : Z) :
  at_ buf 0 = 255 -> 1 <= blen buf -> 1 <= e ->
  exists rest, toStringAscii buf 0 e = String "127"%char rest.
Proof.
  intros Hff Hlen He. destruct buf as [|b buf]; [unfold blen in Hlen; simpl in Hlen; lia|].
  unfold at_ in Hff. simpl in Hff. apply byteZ_255 in Hff. subst b.
  unfold toStringAscii. change (Z.to_nat (Z.max 0 0)) with 0%nat. rewrite drop_0.
  destruct (Z.to_nat (Z.min e (blen (xff :: buf)) - Z.max 0 0)) as [|n] eqn:En; [lia|].
  eexists. reflexivity.
Qed.

Lemma hasRiffWave_ff (buf : Buffer) :
  at_ buf 0 = 255 -> 1 <= blen buf -> hasRiffWave buf = false.
Proof.
  intros H1 H2. unfold hasRiffWave.
  destruct (toStringAscii_ff buf 4 H1 H2 ltac:(lia)) as [rest ->]. reflexivity.
Qed.

Lemma skipId3Size_ff (buf : Buffer) :
  at_ buf 0 = 255 -> 1 <= blen buf -> skipId3Size buf = 0.
Proof.
  intros H1 H2. unfold skipId3Size. destruct (blen buf <? 10); [done|].
  destruct (toStringAscii_ff buf 3 H1 H2 ltac:(lia)) as [rest ->]. reflexivity.
Qed.








(** ** Determinism *)
















(** * Further properties of the code *)

(** ** io.ts *)

Lemma prefix_app (p s t : string) :
  String.prefix p s = true -> String.prefix p (s +:+ t) = true.
Proof.
  revert s. induction p as [|c p IH]; intros s H.
  - by destruct (s +:+ t).
  - destruct s as [|d s]; simpl in *; [discriminate|].
    destruct (Ascii.ascii_dec c d); [by apply IH | done].
Qed.

Lemma prefix_slash (p s : string) (c : ascii) :
  String.prefix p s = true -> In c (list_ascii_of_string p) ->
  In c (list_ascii_of_string s).
Proof.
  revert s. induction p as [|a p IH]; intros s H Hin; [destruct Hin|].
  destruct s as [|d s]; simpl in *; [discriminate|].
  destruct (Ascii.ascii_dec a d) as [->|]; [|done].
  destruct Hin as [->|Hin]; [by left | right; by apply IH].
Qed.

(** [isPathLike] accepts only strings that contain a slash, so a bare file
    name is never path-like; and it looks at the beginning of the string
    only: appending to a path-like string keeps it path-like. *)
Theorem isPathLike_slash (input : string) :
  isPathLike input = true ->
  In "/"%char (list_ascii_of_string input)
  /\ forall suffix, isPathLike (input +:+ suffix) = true.
Proof.
  unfold isPathLike, startsWith. intros H.
  apply orb_true_iff in H as [H|H]; [apply orb_true_iff in H as [H|H]|].
  all: split;
    [ eapply prefix_slash; [exact H | simpl; tauto]
    | intros suffix; rewrite (prefix_app _ _ suffix H); by rewrite ?orb_true_r ].
Qed.

Lemma isPathLike_slash_witness :
  In "/"%char (list_ascii_of_string "../a.wav")
  /\ isPathLike ("../a.wav" +:+ ".bak") = true.
Proof.
  destruct (isPathLike_slash "../a.wav" eq_refl) as [H1 H2].
  split; [exact H1 | exact (H2 ".bak"%string)].
Defined.

(** X1. [readBytes] returns the bytes of the source from [offset], at most
    [length] of them and never past the end, whether the source is a buffer
    (read with [subarray]) or a file (read with [fs.readSync]); at or past
    the end it returns nothing. *)
Theorem readBytes_exact (o : OpenedSource) (offset len : Z) :
  0 <= offset -> 0 <= len ->
  readBytes o offset len = payload (contents o) offset len
  /\ blen (readBytes o offset len) = Z.min len (Z.max 0 (blen (contents o) - offset))
  /\ (blen (contents o) <= offset -> readBytes o offset len = []).
Proof.
  intros Ho Hl. split; [by apply readBytes_range|]. split; [by apply blen_readBytes|].
  intros He. rewrite readBytes_range by lia.
  rewrite drop_ge by (unfold blen in He; lia). apply take_nil.
Qed.

Lemma readBytes_exact_witness :
  readBytes (openSource (SrcPath sampleWav)) 46 10 = payload sampleWav 46 10
  /\ readBytes (openSource (SrcBuffer sampleWav)) 48 10 = [].
Proof.
  split.
  - apply (readBytes_exact (openSource (SrcPath sampleWav)) 46 10); lia.
  - apply (readBytes_exact (openSource (SrcBuffer sampleWav)) 48 10); [lia | lia |].
    vm_compute. discriminate.
Defined.

(** ** streamCopyToFile *)

Lemma streamLoop_copyLoop (fuel : nat) :
  forall src position remaining file written,
    streamLoop fuel src position remaining file written
    = match copyLoop fuel src position remaining file with
      | Some file' => Some (file', written + (blen file' - blen file))
      | None => None
      end.
Proof.
  induction fuel as [|fuel IH]; intros src position remaining file written; simpl.
  - destruct (0 <? remaining); [done|]. f_equal. f_equal. lia.
  - destruct (0 <? remaining); [|f_equal; f_equal; lia].
    rewrite IH. destruct (copyLoop _ _ _ _ _) as [file'|]; [|done].
    f_equal. f_equal. rewrite blen_app. lia.
Qed.

Lemma streamParts_inRange (fuel : nat) (sources : list Part) :
  Forall partInRange sources ->
  Forall (fun p => length_ p <= chunkSize * Z.of_nat fuel) sources ->
  forall file written,
    streamParts fuel sources file written
    = Some (file ++ concat (map partBytes sources), written + sumLengths sources).
Proof.
  induction 1 as [|p sources (Hs & Hl & Hb) _ IH]; intros Hf file written.
  - simpl. rewrite app_nil_r. f_equal. f_equal. lia.
  - apply Forall_cons_1 in Hf as [Hfp Hf].
    cbn [streamParts]. rewrite streamLoop_copyLoop, copyLoop_range by done.
    rewrite (IH Hf). cbn [map concat sumLengths fold_right].
    fold (sumLengths sources). unfold partBytes at 2, payload.
    rewrite app_assoc. f_equal. f_equal.
    rewrite blen_app. unfold blen at 2. rewrite length_take, length_drop.
    unfold blen in Hb. lia.
Qed.

(** X2. When every part lies inside its source, [streamCopyToFile] ends
    (each part within ceil(length / 64 KiB) iterations), the file holds the
    parts' bytes in order and the count returned is the sum of their
    lengths. The output path is taken to name none of the sources. *)
Theorem streamCopyToFile_inRange (fuel : nat) (sources : list Part) :
  Forall partInRange sources ->
  Forall (fun p => length_ p <= chunkSize * Z.of_nat fuel) sources ->
  streamCopyToFile fuel sources
  = Some (concat (map partBytes sources), sumLengths sources).
Proof.
  intros Hr Hf. unfold streamCopyToFile. by rewrite streamParts_inRange.
Qed.

Lemma streamCopyToFile_inRange_witness :
  streamCopyToFile 1
    [{| opened := openSource (SrcPath sampleWav); start := 44; length_ := 3 |};
     {| opened := openSource (SrcBuffer sampleWav); start := 0; length_ := 4 |}]
  = Some ([x01; x02; x03] ++ list_byte_of_string "RIFF", 7).
Proof.
  apply (streamCopyToFile_inRange 1
    [{| opened := openSource (SrcPath sampleWav); start := 44; length_ := 3 |};
     {| opened := openSource (SrcBuffer sampleWav); start := 0; length_ := 4 |}]).
  - repeat constructor; vm_compute; congruence.
  - repeat constructor; vm_compute; congruence.
Defined.

Lemma streamParts_overrun (fuel : nat) (sources : list Part) :
  Exists partOverrun sources ->
  forall file written, streamParts fuel sources file written = None.
Proof.
  induction 1 as [p sources (Hs & Hl & Hb) | p sources _ IH]; intros file written;
    cbn [streamParts]; rewrite streamLoop_copyLoop.
  - by rewrite copyLoop_stuck.
  - destruct (copyLoop _ _ _ _ _); [apply IH | done].
Qed.

(** X3. When a part asks for more bytes than its source holds, the reads at the
    end of the source return nothing, [remaining] stays positive and
    [streamCopyToFile] never returns. *)
Theorem streamCopyToFile_overrun (fuel : nat) (sources : list Part) :
  Exists partOverrun sources -> streamCopyToFile fuel sources = None.
Proof. intros H. by apply streamParts_overrun. Qed.

Lemma streamCopyToFile_overrun_witness :
  streamCopyToFile 1000
    [{| opened := openSource (SrcBuffer sampleWav); start := 44; length_ := 5 |}] = None.
Proof.
  apply streamCopyToFile_overrun. left. repeat split; vm_compute; congruence.
Defined.

(** ** The errors of the engines *)



Lemma checkInt_Err (v : Q) (max : Z) (e : Error) :
  checkInt v max = Err e -> e = RangeError.
Proof. unfold checkInt. destruct (_ && _); [done|]. by intros [= <-]. Qed.

Lemma createWavHeader_Err (total : Z) (w : WavProbeInfo) (e : Error) :
  createWavHeader total w = Err e -> e = RangeError.
Proof.
  unfold createWavHeader, writeUInt32LE, writeUInt16LE.
  repeat match goal with
         | |- context [checkInt ?v ?m] =>
             let E := fresh "E" in
             destruct (checkInt v m) eqn:E; cbn [bind];
             [|intros [= <-]; by eapply checkInt_Err]
         end.
  done.
Qed.










(** ** The dispatcher *)



(** ** The two output modes *)




(** The WAV file mode *)
















(** ** Mixed containers *)





(** ** The canonical header *)

Lemma checkInt_frac_Ok (n : Z) (d : positive) (max v : Z) :
  checkInt (n # d) max = Ok v -> 0 <= n /\ n <= max * Z.pos d.
Proof.
  unfold checkInt.
  destruct (Qle_bool 0 (n # d)) eqn:E1; [|done].
  destruct (Qle_bool (n # d) (inject_Z max)) eqn:E2; [|done]. intros _.
  apply Qle_bool_iff in E1, E2. unfold Qle in E1, E2. simpl in E1, E2. lia.
Qed.

Lemma createWavHeader_fits (total : Z) (w : WavProbeInfo) (h : Buffer) :
  createWavHeader total w = Ok h -> headerFits total w.
Proof.
  unfold createWavHeader, writeUInt32LE, writeUInt16LE.
  destruct (checkInt (inject_Z (36 + total)) _) as [v1|] eqn:E1; [|cbn [bind]; intros; discriminate]. cbn [bind].
  destruct (checkInt 16 _) as [v2|] eqn:E2; [|cbn [bind]; intros; discriminate]. cbn [bind].
  destruct (checkInt 1 _) as [v3|] eqn:E3; [|cbn [bind]; intros; discriminate]. cbn [bind].
  destruct (checkInt (inject_Z (wav_channels w)) _) as [v4|] eqn:E4; [|cbn [bind]; intros; discriminate]. cbn [bind].
  destruct (checkInt (inject_Z (wav_sampleRate w)) _) as [v5|] eqn:E5; [|cbn [bind]; intros; discriminate]. cbn [bind].
  destruct (checkInt (_ * _ * _)%Q _) as [v6|] eqn:E6; [|cbn [bind]; intros; discriminate]. cbn [bind].
  destruct (checkInt (inject_Z (wav_channels w) * _)%Q _) as [v7|] eqn:E7; [|cbn [bind]; intros; discriminate]. cbn [bind].
  destruct (checkInt (inject_Z (bitsPerSample w)) _) as [v8|] eqn:E8; [|cbn [bind]; intros; discriminate]. cbn [bind].
  destruct (checkInt (inject_Z total) _) as [v9|] eqn:E9; [|cbn [bind]; intros; discriminate]. cbn [bind].
  intros _.
  apply checkInt_Z_Ok in E1 as [_ ?], E4 as [_ ?], E5 as [_ ?], E8 as [_ ?], E9 as [_ ?].
  unfold Qdiv, Qmult, Qinv, inject_Z in E6, E7. cbn [Qnum Qden] in E6, E7.
  apply checkInt_frac_Ok in E6, E7.
  unfold headerFits. repeat split; lia.
Qed.

(** X9. [createWavHeader] returns a header exactly when every field fits its
    slot, and the header is then the canonical one; otherwise it throws a
    RangeError. It never writes a size that has wrapped around. *)
Theorem createWavHeader_exact (total : Z) (w : WavProbeInfo) :
  (headerFits total w ->
   createWavHeader total w
   = Ok (canonicalHeader total (wav_channels w) (wav_sampleRate w) (bitsPerSample w)))
  /\ (~ headerFits total w -> createWavHeader total w = Err RangeError).
Proof.
  split.
  - intros (H1 & H2 & H3 & H4 & H5 & H6 & H7).
    apply createWavHeader_canonical; lia.
  - intros Hn. destruct (createWavHeader total w) as [h|e] eqn:E.
    + by apply createWavHeader_fits in E.
    + by apply createWavHeader_Err in E as ->.
Qed.

Lemma createWavHeader_exact_witness :
  createWavHeader 8 sampleInfo = Ok (canonicalHeader 8 1 44100 16)
  /\ createWavHeader 4294967260 sampleInfo = Err RangeError.
Proof.
  split.
  - apply (proj1 (createWavHeader_exact 8 sampleInfo)).
    unfold headerFits. cbn. lia.
  - apply (proj2 (createWavHeader_exact 4294967260 sampleInfo)).
    unfold headerFits. cbn. lia.
Defined.

(** ** Stitching a canonical file *)

Section Canonical.
Variables (total channels sampleRate bits : Z) (body : Buffer).
Hypothesis Hch : 0 < channels < 2 ^ 16.
Hypothesis Hsr : 0 < sampleRate < 2 ^ 32.
Hypothesis Hbits : 0 < bits < 2 ^ 16.
Hypothesis Htotal : 0 <= total < 2 ^ 32.
Hypothesis Hbody : blen body <= total.
Let hdr := canonicalHeader total channels sampleRate bits.
Let info :=
  {| wav_sampleRate := sampleRate; wav_channels := channels; bitsPerSample := bits;
     dataBytes := Some total |}.

Lemma canonical_probe : probe (SrcBuffer (hdr ++ body)) = Ok (Wav info).
Proof.
  rewrite probe_eq. unfold headOf, bytesOf. cbn [openSource contents].
  destruct (take_head_app hdr body) as (body' & -> & Hb'); [apply hdr_len|].
  unfold probeBuffer, hdr. rewrite parseWavHeader_canonical by lia. done.
Qed.

Lemma canonical_DataChunk : DataChunk (SrcBuffer (hdr ++ body)) (44, total).
Proof.
  unfold DataChunk, headOf, bytesOf. cbn [openSource contents fst snd].
  destruct (take_head_app hdr body) as (body' & -> & Hb'); [apply hdr_len|].
  pose proof (hdr_len total channels sampleRate bits) as Hlen. fold hdr in Hlen.
  pose proof (blen_nonneg body').
  apply FirstData_skip.
  - rewrite blen_app. lia.
  - rewrite toStringAscii_app_l by lia. change (12 + 4) with 16.
    unfold hdr. by rewrite hdr_fmt.
  - rewrite u32le_app_l by lia. change (12 + 4) with 16. unfold hdr at 2.
    rewrite hdr_fmt_size. change (12 + 8 + 16) with 36.
    assert (E : u32le (hdr ++ body') (36 + 4) = total).
    { rewrite u32le_app_l by lia. change (36 + 4) with 40. unfold hdr.
      by rewrite hdr_total. }
    assert (HF : FirstData (hdr ++ body') 36 (36 + 8) (u32le (hdr ++ body') (36 + 4))).
    { apply FirstData_here.
      - rewrite blen_app. lia.
      - rewrite toStringAscii_app_l by lia. change (36 + 4) with 40.
        unfold hdr. by rewrite hdr_data. }
    by rewrite E in HF.
Qed.

Lemma canonical_payload : payloadOf (SrcBuffer (hdr ++ body)) (44, total) = body.
Proof.
  unfold payloadOf, payload, bytesOf. cbn [openSource contents fst snd].
  pose proof (hdr_len total channels sampleRate bits) as Hlen. fold hdr in Hlen.
  rewrite drop_app_length' by (unfold blen in Hlen; lia).
  apply take_ge. unfold blen in Hbody. lia.
Qed.

(** A canonical file stitched alone is returned unchanged. *)
Lemma stitchWav_canonical (fuel : nat) (opts : StitchOptions) :
  headerFits total info -> output opts = OutBuffer ->
  stitchWav fuel [SrcBuffer (hdr ++ body)] opts
  = Some {| returned := Ok (Some (hdr ++ body)); written := None |}.
Proof.
  intros Hfits Hout. unfold stitchWav. rewrite canonical_probe.
  destruct (validateWav_homogeneous info [SrcBuffer (hdr ++ body)]) as [infos ->].
  { intros s [<-|[]]. exists info. split; [apply canonical_probe | done]. }
  assert (Hc : Forall2 DataChunk [SrcBuffer (hdr ++ body)] [(44, total)]).
  { constructor; [apply canonical_DataChunk | constructor]. }
  rewrite (locateParts_spec _ _ _ _ Hc) by done.
  replace (0 + sumSizes [(44, total)] + _) with total.
  2:{ cbn. destruct (0 <? default 0 (gapMs opts)); lia. }
  destruct Hfits as (F1 & F2 & F3 & F4 & F5 & F6 & F7). cbn in F3, F4, F5, F6, F7.
  rewrite createWavHeader_canonical by (cbn; lia). rewrite Hout.
  cbn [concat]. rewrite (bufferParts_spec _ _ _ _ Hc) by done.
  cbn [zip_with interleave]. rewrite canonical_payload. by rewrite !app_nil_r.
Qed.
End Canonical.

(** What buffer-mode [stitchWav] returns is a canonical file. *)
Lemma stitchWav_buffer_canonical (fuel : nat) (srcs : list AudioSource)
    (opts : StitchOptions) (out : Buffer) (wr : option Buffer) :
  stitchWav fuel srcs opts = Some {| returned := Ok (Some out); written := wr |} ->
  exists total channels sampleRate bits body,
    out = canonicalHeader total channels sampleRate bits ++ body
    /\ 0 < channels < 2 ^ 16 /\ 0 < sampleRate < 2 ^ 32 /\ 0 < bits < 2 ^ 16
    /\ 0 <= total < 2 ^ 32 /\ blen body <= total
    /\ headerFits total {| wav_sampleRate := sampleRate; wav_channels := channels;
                           bitsPerSample := bits; dataBytes := Some total |}.
Proof.
  intros H. pose proof H as H'. apply stitchWav_buffer_Ok in H'
    as (s0 & rest & w0 & chunks & Es & Ep & Hhom & Hc & Hg0 & Ht0 & Ht1 & ->).
  pose proof (probe_Wav_bounds _ _ Ep) as (B1 & B2 & B3).
  set (total := sumSizes chunks + _) in *.
  exists total, (wav_channels w0), (wav_sampleRate w0), (bitsPerSample w0).
  eexists. split; [reflexivity|]. repeat (split; [lia|]). split.
  - pose proof (blen_interleave_le
                  (alloc (if 0 <? default 0 (gapMs opts)
                          then wavBytesPerMs w0 * default 0 (gapMs opts) else 0))
                  _ _ Hc) as Hle.
    rewrite blen_alloc, Z.max_r in Hle by lia. unfold total. lia.
  - revert H. unfold stitchWav. rewrite Es, Ep, <- Es.
    destruct (validateWav w0 srcs) as [infos|]; [|done].
    rewrite (locateParts_spec _ _ _ _ Hc) by (rewrite length_map; lia).
    destruct (createWavHeader _ w0) as [hdr|] eqn:Eh; [|done]. intros _.
    apply createWavHeader_fits in Eh.
    replace (0 + sumSizes chunks + _) with total in Eh.
    2:{ unfold total. rewrite bytesPerMsOf_eq.
        destruct (0 <? default 0 (gapMs opts)); lia. }
    exact Eh.
Qed.

(** Stitching is idempotent on its own output: the bytes a buffer-mode
    [stitchWav] returns, stitched alone (with any gap), come back unchanged. *)
Theorem stitchWav_idempotent (fuel fuel' : nat) (srcs : list AudioSource)
    (opts opts' : StitchOptions) (out : Buffer) (wr : option Buffer) :
  stitchWav fuel srcs opts = Some {| returned := Ok (Some out); written := wr |} ->
  output opts' = OutBuffer ->
  stitchWav fuel' [SrcBuffer out] opts'
  = Some {| returned := Ok (Some out); written := None |}.
Proof.
  intros H Hout.
  apply stitchWav_buffer_canonical in H
    as (total & ch & sr & bits & body & -> & H1 & H2 & H3 & H4 & H5 & H6).
  by apply stitchWav_canonical.
Qed.

Lemma stitchWav_idempotent_witness :
  stitchWav 0 [SrcBuffer (canonicalHeader 448 1 44100 16
                          ++ [x01; x02; x03; x04] ++ alloc 440 ++ [x01; x02; x03; x04])]
    (options 7 OutBuffer)
  = Some {| returned :=
              Ok (Some (canonicalHeader 448 1 44100 16
                        ++ [x01; x02; x03; x04] ++ alloc 440 ++ [x01; x02; x03; x04]));
            written := None |}.
Proof.
  apply (stitchWav_idempotent 0 0 [SrcBuffer sampleWav; SrcPath sampleWav]
           (options 5 OutBuffer) (options 7 OutBuffer) _ None).
  - vm_compute. reflexivity.
  - reflexivity.
Defined.

(** ** The MP3 engine on one source, and its use of the file system *)









(** X23. The frame the probe decoded lies at or after the offset the engine
    cuts at: stripping a source to its first frame sync never removes the
    frame header that identified it. *)
Theorem stitchMp3_cut_keeps_frame (s : AudioSource) (m : Mp3ProbeInfo) (off : Z) :
  probe s = Ok (Mp3 m) -> FirstSync s off ->
  exists j, off <= j /\ j + 4 <= blen (headOf s)
            /\ decodeFrameAt (headOf s) (skipId3Size (headOf s)) j = Some m.
Proof.
  rewrite probe_eq. intros Hp (H1 & H2 & H3 & H4).
  apply probeBuffer_Mp3 in Hp as [_ Hp].
  apply parseMp3Header_Some in Hp as (j & Hj1 & Hj2 & Hj3 & Hd & _).
  exists j. split; [|by split].
  destruct (Z_le_gt_dec off j) as [|Hgt]; [done|].
  apply decodeFrameAt_Some in Hd as (Hs & _). rewrite H4 in Hs by lia. done.
Qed.

Lemma stitchMp3_cut_keeps_frame_witness :
  exists j, 14 <= j /\ j + 4 <= blen (headOf (SrcBuffer taggedMp3))
            /\ decodeFrameAt (headOf (SrcBuffer taggedMp3))
                 (skipId3Size (headOf (SrcBuffer taggedMp3))) j
               = Some {| mp3_sampleRate := 44100; mp3_channels := 2;
                         bitrateKbps := Some 128; vbr := false; id3v2Bytes := Some 14 |}.
Proof.
  apply (stitchMp3_cut_keeps_frame (SrcBuffer taggedMp3)).
  - vm_compute. reflexivity.
  - apply findFirstFrameOffset_FirstSync. vm_compute. reflexivity.
Defined.

(** ** The rounding policies of the MP3 gap *)

Lemma gapFrames_order (sr g : Z) :
  0 <= g * sr ->
  0 <= gapFrames sr g floor
  /\ gapFrames sr g floor <= gapFrames sr g nearest
  /\ gapFrames sr g nearest <= gapFrames sr g ceil.
Proof.
  intros Hx. unfold gapFrames.
  replace (2 * g * sr) with (2 * (g * sr)) by lia. set (x := g * sr) in *.
  clearbody x. Z.div_mod_to_equations. lia.
Qed.

Lemma silenceCopies_of_frames (sr g : Z) (r : GapRounding) :
  silenceCopies sr g r
  = if gapFrames sr g r =? 0 then 0
    else Z.max 1 (- (- (gapFrames sr g r * 11520) / sr)).
Proof. reflexivity. Qed.

Lemma copies_mono (sr a b : Z) :
  0 < sr -> 0 <= a <= b ->
  (if a =? 0 then 0 else Z.max 1 (- (- (a * 11520) / sr)))
  <= (if b =? 0 then 0 else Z.max 1 (- (- (b * 11520) / sr))).
Proof.
  intros Hsr Hab.
  destruct (Z.eqb_spec a 0), (Z.eqb_spec b 0); try lia.
  assert (- (a * 11520) / sr >= - (b * 11520) / sr); [|lia].
  apply Z.le_ge, Z.div_le_mono; lia.
Qed.

(** X24. The three rounding policies are ordered: floor inserts at most as many
    copies of the clip as nearest, and nearest at most as many as ceil.
    Under ceil every positive gap inserts at least one copy; under floor a
    gap shorter than one frame inserts none. Whatever the policy, the copies
    overshoot the rounded gap by less than one clip. *)
Theorem gapRepeats_policies (m : Mp3ProbeInfo) (g : Z) :
  0 < mp3_sampleRate m -> 0 <= g ->
  gapRepeats m g floor <= gapRepeats m g nearest
  /\ gapRepeats m g nearest <= gapRepeats m g ceil
  /\ (0 < g -> 1 <= gapRepeats m g ceil)
  /\ (gapRepeats m g floor = 0 <-> g * mp3_sampleRate m < 1152000)
  /\ forall r, 0 < gapRepeats m g r ->
       (gapRepeats m g r - 1) * 100 * mp3_sampleRate m
       < gapFrames (mp3_sampleRate m) g r * 1152000.
Proof.
  intros Hsr Hg. rewrite !gapRepeats_eq by done.
  set (sr := mp3_sampleRate m) in *.
  destruct (gapFrames_order sr g ltac:(nia)) as (H0 & H1 & H2).
  rewrite !silenceCopies_of_frames.
  split; [apply copies_mono; lia|]. split; [apply copies_mono; lia|].
  split; [|split].
  - intros Hpos.
    assert (Hc : 1 <= gapFrames sr g ceil).
    { unfold gapFrames. assert (0 < g * sr) by nia.
      Z.div_mod_to_equations. lia. }
    destruct (Z.eqb_spec (gapFrames sr g ceil) 0); lia.
  - assert (Hf : gapFrames sr g floor = 0 <-> g * sr < 1152000).
    { unfold gapFrames. assert (0 <= g * sr) by nia.
      Z.div_mod_to_equations. lia. }
    destruct (Z.eqb_spec (gapFrames sr g floor) 0) as [E|E]; [tauto|].
    split; [lia | tauto].
  - intros r. rewrite gapRepeats_eq, silenceCopies_of_frames by done. fold sr.
    destruct (Z.eqb_spec (gapFrames sr g r) 0) as [E|E]; [lia|]. intros _.
    assert (Hfr : 0 < gapFrames sr g r) by (destruct r; unfold gapFrames in *; lia).
    pose proof (neg_div_ceil (gapFrames sr g r * 11520) sr Hsr) as [_ Hlt].
    nia.
Qed.

Lemma gapRepeats_policies_witness :
  gapRepeats frameInfo 13 floor = 0 /\ 1 <= gapRepeats frameInfo 13 ceil.
Proof.
  destruct (gapRepeats_policies frameInfo 13) as (_ & _ & H3 & H4 & _);
    [cbn; lia | lia |].
  split; [apply H4; cbn; lia | apply H3; lia].
Defined.

(** ** A gap that is not positive *)

Section NoGap.
Variables (g g' : Z).
Hypothesis Hg : g <= 0.
Hypothesis Hg' : g' <= 0.




End NoGap.




(** ** The silent gap of the WAV engine *)

(** The gap of the WAV engine is floor(bytes per millisecond) * g
    bytes: never more than g ms of audio, short of it by less than g bytes,
    and exactly g ms of whole sample frames when the sample rate is a
    multiple of 1000 and the sample size a multiple of 8 bits. *)
Theorem wav_gap_bytes (w : WavProbeInfo) (g : Z) :
  0 <= wav_sampleRate w -> 0 <= wav_channels w -> 0 <= bitsPerSample w -> 0 < g ->
  let exact8000 := wav_sampleRate w * wav_channels w * bitsPerSample w * g in
  let gapBytes := bytesPerMsOf w * g in
  8000 * gapBytes <= exact8000 < 8000 * (gapBytes + g)
  /\ ((1000 | wav_sampleRate w) -> (8 | bitsPerSample w) ->
      gapBytes = (wav_sampleRate w / 1000 * g) * (wav_channels w * (bitsPerSample w / 8))).
Proof.
  intros Hsr Hch Hb Hg. cbv zeta. rewrite bytesPerMsOf_eq. unfold wavBytesPerMs.
  set (x := wav_sampleRate w * wav_channels w * bitsPerSample w).
  assert (Hx : 0 <= x) by (unfold x; nia).
  split.
  - pose proof (Z.mul_div_le x 8000 ltac:(lia)).
    pose proof (Z.mul_succ_div_gt x 8000 ltac:(lia)). nia.
  - intros [a Ha] [b Hb']. unfold x. rewrite Ha, Hb'.
    rewrite !Z.div_mul by lia.
    replace (a * 1000 * wav_channels w * (b * 8)) with (a * wav_channels w * b * 8000) by lia.
    rewrite Z.div_mul by lia. lia.
Qed.

Lemma wav_gap_bytes_witness :
  8000 * (bytesPerMsOf sampleInfo * 5) <= 44100 * 1 * 16 * 5
  /\ bytesPerMsOf sampleInfo * 5 = 440.
Proof.
  destruct (wav_gap_bytes sampleInfo 5) as [[H _] _]; try (cbn; lia).
  split; [exact H | reflexivity].
Defined.

(** ** ID3v2 sizes *)

Lemma lor_mul_low (hi lo k : Z) :
  0 <= k -> 0 <= lo < 2 ^ k -> Z.lor (hi * 2 ^ k) lo = hi * 2 ^ k + lo.
Proof.
  intros Hk Hlo.
  assert (Hd : Z.land (Z.shiftl hi k) lo = 0).
  { apply Z.bits_inj'. intros i Hi. rewrite Z.land_spec, Z.bits_0.
    destruct (Z_lt_le_dec i k) as [Hlt|Hge].
    - by rewrite Z.shiftl_spec_low.
    - destruct (Z.eq_dec lo 0) as [->|Hne]; [by rewrite Z.bits_0, andb_false_r|].
      rewrite (Z.bits_above_log2 lo i), andb_false_r; [done | lia |].
      eapply Z.lt_le_trans; [|exact Hge]. apply Z.log2_lt_pow2; lia. }
  pose proof (Z.add_lor_land (Z.shiftl hi k) lo) as H. rewrite Hd in H.
  rewrite Z.shiftl_mul_pow2 in * by lia. lia.
Qed.

Lemma land_127 (a : Z) : Z.land a 127 = a mod 128.
Proof. change 127 with (Z.ones 7). by rewrite Z.land_ones by lia. Qed.

Lemma synchsafe_value (a b c d : Z) :
  0 <= a -> 0 <= b < 128 -> 0 <= c < 128 -> 0 <= d < 128 ->
  Z.lor (Z.lor (Z.lor (Z.shiftl a 21) (Z.shiftl b 14)) (Z.shiftl c 7)) d
  = a * 2097152 + b * 16384 + c * 128 + d.
Proof.
  intros Ha Hb Hc Hd. rewrite !Z.shiftl_mul_pow2 by lia.
  change (2 ^ 14) with 16384. change (2 ^ 7) with 128.
  rewrite (lor_mul_low a (b * 16384) 21) by lia.
  change (2 ^ 21) with 2097152.
  replace (a * 2097152 + b * 16384) with ((a * 128 + b) * 2 ^ 14) by lia.
  rewrite (lor_mul_low _ (c * 128) 14) by lia.
  replace ((a * 128 + b) * 2 ^ 14 + c * 128) with ((a * 16384 + b * 128 + c) * 2 ^ 7) by lia.
  rewrite (lor_mul_low _ d 7) by lia. lia.
Qed.

(** The size field read as a number. *)
Lemma skipId3Size_value (buf : Buffer) :
  10 <= blen buf -> toStringAscii buf 0 3 = "ID3"%string ->
  skipId3Size buf
  = 10 + (at_ buf 6 mod 128 * 2097152 + at_ buf 7 mod 128 * 16384
          + at_ buf 8 mod 128 * 128 + at_ buf 9 mod 128).
Proof.
  intros Hlen Hid. unfold skipId3Size.
  destruct (blen buf <? 10) eqn:E; [lia|]. rewrite Hid.
  change (negb ("ID3" =? "ID3")%string) with false. cbv iota zeta.
  rewrite !land_127.
  pose proof (Z.mod_pos_bound (at_ buf 6) 128 ltac:(lia)).
  pose proof (Z.mod_pos_bound (at_ buf 7) 128 ltac:(lia)).
  pose proof (Z.mod_pos_bound (at_ buf 8) 128 ltac:(lia)).
  pose proof (Z.mod_pos_bound (at_ buf 9) 128 ltac:(lia)).
  by rewrite synchsafe_value by lia.
Qed.

(** [skipId3Size] answers 0 (no ID3v2 header) or the length of the tag,
    header included: between 10 and 10 + 2^28 - 1. The top bit of each size
    byte is ignored. *)
Theorem skipId3Size_range (buf : Buffer) :
  skipId3Size buf = 0
  \/ (10 <= blen buf /\ toStringAscii buf 0 3 = "ID3"%string
      /\ 10 <= skipId3Size buf < 10 + 2 ^ 28
      /\ skipId3Size buf
         = 10 + (at_ buf 6 mod 128 * 2097152 + at_ buf 7 mod 128 * 16384
                 + at_ buf 8 mod 128 * 128 + at_ buf 9 mod 128)).
Proof.
  destruct (Z_lt_le_dec (blen buf) 10) as [Hlt|Hge].
  { left. unfold skipId3Size. by destruct (Z.ltb_spec (blen buf) 10); [|lia]. }
  destruct (String.eqb (toStringAscii buf 0 3) "ID3") eqn:Eid.
  2:{ left. unfold skipId3Size. rewrite Eid. by destruct (blen buf <? 10). }
  apply String.eqb_eq in Eid. right.
  rewrite (skipId3Size_value buf Hge Eid).
  pose proof (Z.mod_pos_bound (at_ buf 6) 128 ltac:(lia)).
  pose proof (Z.mod_pos_bound (at_ buf 7) 128 ltac:(lia)).
  pose proof (Z.mod_pos_bound (at_ buf 8) 128 ltac:(lia)).
  pose proof (Z.mod_pos_bound (at_ buf 9) 128 ltac:(lia)).
  repeat split; try done; lia.
Qed.

Lemma at_cons (b : byte) (buf : Buffer) (i : Z) :
  0 < i -> at_ (b :: buf) i = at_ buf (i - 1).
Proof.
  intros Hi. unfold at_. replace (Z.to_nat i) with (S (Z.to_nat (i - 1))) by lia. done.
Qed.

(** X7. [skipId3Size] decodes the size written by an ID3v2 encoder: on a buffer
    that begins with the header of a tag of [n] body bytes it answers
    10 + n, whatever the version, the flags and the bytes that follow. *)
Theorem skipId3Size_roundtrip (major minor flags : byte) (n : Z) (rest : Buffer) :
  0 <= n < 2 ^ 28 ->
  skipId3Size (id3Header major minor flags n ++ rest) = 10 + n.
Proof.
  intros Hn.
  assert (Hlen : blen (id3Header major minor flags n) = 10) by reflexivity.
  rewrite skipId3Size_app_l by lia.
  rewrite skipId3Size_value; [|lia|reflexivity].
  unfold id3Header, synchsafe. cbn [list_byte_of_string app].
  unfold at_. change (Z.to_nat 6) with 6%nat. change (Z.to_nat 7) with 7%nat.
  change (Z.to_nat 8) with 8%nat. change (Z.to_nat 9) with 9%nat.
  change (list_byte_of_string "ID3") with [x49; x44; x33]. cbn [app nth].
  rewrite !byteZ_u8.
  change (2 ^ 28) with 268435456 in Hn.
  rewrite !Z.shiftr_div_pow2 by lia.
  change (2 ^ 21) with 2097152. change (2 ^ 14) with 16384. change (2 ^ 7) with 128.
  Z.div_mod_to_equations. lia.
Qed.

Lemma skipId3Size_roundtrip_witness :
  skipId3Size (id3Header x04 x00 x00 300 ++ frame128) = 310.
Proof.
  apply (skipId3Size_roundtrip x04 x00 x00 300 frame128). lia.
Defined.

(** ** The limits of the header window *)

Lemma blen_headOf_window (s : AudioSource) : blen (headOf s) <= 8192.
Proof.
  pose proof headWindow_val. unfold headOf, blen. rewrite length_take. lia.
Qed.




(** X5. Short inputs: a source of fewer than 4 bytes (the empty one included) is
    rejected as unrecognized, and a source of fewer than 44 bytes never
    probes as WAV. *)
Theorem probe_short (s : AudioSource) :
  (blen (bytesOf s) < 4 -> probe s = Err UnrecognizedContainer)
  /\ (blen (bytesOf s) < 44 -> forall w, probe s <> Ok (Wav w)).
Proof.
  pose proof (blen_headOf s) as Hh. rewrite probe_eq. split.
  - intros Hlen. unfold probeBuffer, parseWavHeader.
    destruct (Z.ltb_spec (blen (headOf s)) 44); [|lia]. cbn [bind].
    pose proof (skipId3Size_nonneg (headOf s)).
    unfold parseMp3Header. replace (Z.to_nat _) with 0%nat by lia. done.
  - intros Hlen w Hw. apply probeBuffer_Wav in Hw. unfold parseWavHeader in Hw.
    destruct (Z.ltb_spec (blen (headOf s)) 44); [done|lia].
Qed.

Lemma probe_short_witness :
  probe (SrcBuffer []) = Err UnrecognizedContainer
  /\ probe (SrcBuffer riffMp3) <> Ok (Wav sampleInfo).
Proof.
  split.
  - apply (proj1 (probe_short (SrcBuffer []))). vm_compute. reflexivity.
  - apply (proj2 (probe_short (SrcBuffer riffMp3))). vm_compute. reflexivity.
Defined.


(** ** The fixtures of the tests *)










(** ** File descriptors *)

Lemma withFds_same (fs : Fs) : withFds fs (openFds fs) = fs.
Proof. by destruct fs. Qed.

Lemma freshFd_gt (fs : Fs) (x : nat) : In x (openFds fs) -> (x < freshFd fs)%nat.
Proof.
  unfold freshFd. induction (openFds fs) as [|y l IH]; [done|].
  intros [->|Hx]; cbn [fold_right]; [lia|]. specialize (IH Hx). lia.
Qed.

Lemma filter_absent (fd : nat) (l : list nat) :
  ~ In fd l -> List.filter (fun x => negb (Nat.eqb x fd)) l = l.
Proof.
  induction l as [|y l IH]; intros Hn; [done|]. cbn [List.filter].
  destruct (Nat.eqb_spec y fd) as [->|Hne]; cbn [negb].
  - exfalso. apply Hn. by left.
  - f_equal. apply IH. intros H. apply Hn. by right.
Qed.

Lemma closeSync_openSync (fs : Fs) :
  closeSync (fst (openSync fs)) (snd (openSync fs)) = fs.
Proof.
  unfold closeSync, openSync, withFds. cbn [fst snd fileAt openFds List.filter].
  rewrite Nat.eqb_refl. cbn [negb].
  rewrite filter_absent; [by destruct fs|].
  intros H. apply freshFd_gt in H. lia.
Qed.




Lemma closeSync_fileAt (fd : nat) (fs : Fs) : fileAt (closeSync fd fs) = fileAt fs.
Proof. reflexivity. Qed.

(** Opening a source and closing it leaves the table as it was; a path that
    names no file opens nothing. *)
Lemma openSourceFd_spec (source : Source) (fs : Fs) :
  match resolve fs source with
  | Some a =>
      exists h fs', openSourceFd source fs = (Ok h, fs')
                    /\ h_opened h = openSource a /\ fileAt fs' = fileAt fs
                    /\ closeSourceFd h fs' = fs
                    /\ length (openFds fs')
                       = (length (openFds fs) + if isPath source then 1 else 0)%nat
  | None => exists p, source = Path p /\ openSourceFd source fs = (Err (FileNotReadable p), fs)
  end.
Proof.
  destruct source as [b|p]; cbn [resolve openSourceFd isPath].
  - eexists _, fs. repeat split; try done; cbn; lia.
  - destruct (fileAt fs p) as [c|] eqn:Ef; cbn [option_map]; [|by exists p].
    eexists _, _. split; [reflexivity|]. split; [done|]. split; [done|]. split.
    + unfold closeSourceFd. cbn [h_opened h_fd openSource kind].
      exact (closeSync_openSync fs).
    + cbn. lia.
Qed.

Lemma probeFd_spec (source : Source) (fs : Fs) :
  probeFd source fs
  = (match resolve fs source with
     | Some a => probe a
     | None => match source with
               | Path p => Err (FileNotReadable p)
               | Bytes _ => Err UnrecognizedContainer
               end
     end, fs).
Proof.
  unfold probeFd. pose proof (openSourceFd_spec source fs) as H.
  destruct (resolve fs source) as [a|].
  - destruct H as (h & fs' & -> & Hh & _ & Hc & _). rewrite Hh, Hc. done.
  - destruct H as (p & -> & ->). done.
Qed.

Lemma validateWavFd_fs (w0 : WavProbeInfo) (sources : list Source) (fs : Fs) :
  snd (validateWavFd w0 sources fs) = fs.
Proof.
  induction sources as [|s sources IH]; [done|]. cbn [validateWavFd].
  rewrite probeFd_spec.
  destruct (match resolve fs s with Some a => probe a | None => _ end) as [[w|m]|e];
    try done.
  destruct (negb _ || negb _ || negb _); [done|].
  destruct (validateWavFd w0 sources fs) as [[infos|e] fs'] eqn:E; cbn in IH |- *; done.
Qed.










(** X4. [probe] leaves no descriptor open: whether it succeeds or fails, the
    table of open descriptors is afterwards what it was before. On a source
    whose path names a file it answers as the probe of the bytes does; on a
    path that names no file it fails before it opens anything. *)
Theorem probeFd_closes (source : Source) (fs : Fs) :
  snd (probeFd source fs) = fs
  /\ (forall a, resolve fs source = Some a -> fst (probeFd source fs) = probe a)
  /\ (forall p, source = Path p -> fileAt fs p = None ->
        fst (probeFd source fs) = Err (FileNotReadable p)).
Proof.
  rewrite probeFd_spec. split; [done|]. split.
  - by intros a ->.
  - intros p -> Hp. cbn [resolve fst]. by rewrite Hp.
Qed.

Lemma probeFd_closes_witness :
  fst (probeFd (Path "a.wav")
         {| fileAt := fun p => if String.eqb p "a.wav" then Some sampleWav else None;
            openFds := [3%nat] |})
  = Ok (Wav sampleInfo).
Proof.
  rewrite (proj1 (proj2 (probeFd_closes (Path "a.wav")
                           {| fileAt := fun p => if String.eqb p "a.wav"
                                                 then Some sampleWav else None;
                              openFds := [3%nat] |}))
             (SrcPath sampleWav) eq_refl).
  vm_compute. reflexivity.
Defined.










(** ** When the engines return *)






(** ** Decoding a frame header *)

Lemma land_224 (x : Z) : 0 <= x < 32 -> Z.land (224 + x) 224 = 224.
Proof.
  intros H. replace x with (Z.of_nat (Z.to_nat x)) by lia.
  assert (Hn : (Z.to_nat x < 32)%nat) by lia. revert Hn.
  generalize (Z.to_nat x) as n. intros n Hn.
  do 32 (destruct n as [|n]; [reflexivity|]). lia.
Qed.

Lemma field_bits (x k w : Z) :
  0 <= k -> 0 <= w -> Z.land (Z.shiftr x k) (Z.ones w) = (x / 2 ^ k) mod 2 ^ w.
Proof. intros Hk Hw. rewrite Z.shiftr_div_pow2 by done. by apply Z.land_ones. Qed.

(** X6. The prober reads back the fields of a Layer III frame header that
    starts the source: the sample rate from the version and the sample rate
    index, the channel count from the channel mode, the bitrate from its
    index, whatever the other bits of the header are. *)
Theorem probe_frame_roundtrip (v bi si cm p2 p3 p4 : Z) (rest : Buffer) (s : AudioSource) :
  0 <= v < 4 -> 0 <= bi < 15 -> 0 <= si < 3 -> 0 <= cm < 4 ->
  0 <= p2 < 2 -> 0 <= p3 < 4 -> 0 <= p4 < 64 ->
  bytesOf s = frameHeader v bi si cm p2 p3 p4 ++ rest ->
  probe s = Ok (Mp3 {| mp3_sampleRate := nth (Z.to_nat si) (sampleRatesOf v) 0;
                       mp3_channels := if cm =? 3 then 1 else 2;
                       bitrateKbps := bitrateTable bi;
                       vbr := false;
                       id3v2Bytes := Some 0 |}).
Proof.
  intros Hv Hbi Hsi Hcm Hp2 Hp3 Hp4 Hb.
  rewrite probe_eq. unfold headOf. rewrite Hb.
  set (fh := frameHeader v bi si cm p2 p3 p4).
  set (head := take headWindow (fh ++ rest)).
  pose proof headWindow_val as Hw.
  assert (Hat : forall i, 0 <= i < 4 -> at_ head i = at_ fh i).
  { intros i Hi. unfold head. rewrite at_take by lia. apply at_app_l; [lia|].
    unfold fh, frameHeader, blen. cbn [length]. lia. }
  assert (Hlen : 4 <= blen head).
  { unfold head, blen. rewrite length_take, length_app.
    unfold fh, frameHeader. cbn [length]. lia. }
  assert (H0 : at_ head 0 = 255) by (rewrite Hat by lia; reflexivity).
  assert (H1 : at_ head 1 = 224 + (v * 8 + 2 + p2)).
  { rewrite Hat by lia. unfold fh, frameHeader, at_.
    change (Z.to_nat 1) with 1%nat. cbn [nth].
    rewrite byteZ_u8, Z.mod_small by lia. lia. }
  assert (H2 : at_ head 2 = bi * 16 + si * 4 + p3).
  { rewrite Hat by lia. unfold fh, frameHeader, at_.
    change (Z.to_nat 2) with 2%nat. cbn [nth].
    rewrite byteZ_u8, Z.mod_small by lia. lia. }
  assert (H3 : at_ head 3 = cm * 64 + p4).
  { rewrite Hat by lia. unfold fh, frameHeader, at_.
    change (Z.to_nat 3) with 3%nat. cbn [nth].
    rewrite byteZ_u8, Z.mod_small by lia. lia. }
  apply probeBuffer_Mp3. split.
  { apply parseWavHeader_no_magic, hasRiffWave_ff; [done | lia]. }
  rewrite skipId3Size_ff by (done || lia).
  unfold parseMp3Header.
  destruct (Z.to_nat (Z.min (blen head) (0 + 4096) - 3 - 0)) as [|n] eqn:En; [lia|].
  cbn [scanFrames].
  assert (Ev : Z.land (Z.shiftr (at_ head 1) 3) 3 = v).
  { change 3 with (Z.ones 2) at 2. rewrite field_bits by lia. rewrite H1.
    change (2 ^ 3) with 8. change (2 ^ 2) with 4.
    replace (224 + (v * 8 + 2 + p2)) with ((28 + v) * 8 + (2 + p2)) by lia.
    rewrite Z.div_add_l, (Z.div_small (2 + p2) 8) by lia.
    replace (28 + v + 0) with (v + 7 * 4) by lia.
    rewrite Z.mod_add, Z.mod_small by lia. done. }
  assert (El : Z.land (Z.shiftr (at_ head 1) 1) 3 = 1).
  { change 3 with (Z.ones 2). rewrite field_bits by lia. rewrite H1.
    change (2 ^ 1) with 2. change (2 ^ 2) with 4.
    replace (224 + (v * 8 + 2 + p2)) with ((113 + 4 * v) * 2 + p2) by lia.
    rewrite Z.div_add_l, (Z.div_small p2 2) by lia.
    replace (113 + 4 * v + 0) with (1 + (28 + v) * 4) by lia.
    rewrite Z.mod_add, Z.mod_small by lia. done. }
  assert (Eb : Z.land (Z.shiftr (at_ head 2) 4) 15 = bi).
  { change 15 with (Z.ones 4). rewrite field_bits by lia. rewrite H2.
    change (2 ^ 4) with 16.
    replace (bi * 16 + si * 4 + p3) with (bi * 16 + (si * 4 + p3)) by lia.
    rewrite Z.div_add_l, (Z.div_small (si * 4 + p3) 16) by lia.
    rewrite Z.add_0_r, Z.mod_small by lia. done. }
  assert (Es : Z.land (Z.shiftr (at_ head 2) 2) 3 = si).
  { change 3 with (Z.ones 2). rewrite field_bits by lia. rewrite H2.
    change (2 ^ 2) with 4.
    replace (bi * 16 + si * 4 + p3) with ((bi * 4 + si) * 4 + p3) by lia.
    rewrite Z.div_add_l, (Z.div_small p3 4) by lia.
    replace (bi * 4 + si + 0) with (si + bi * 4) by lia.
    rewrite Z.mod_add, Z.mod_small by lia. done. }
  assert (Ec : Z.land (Z.shiftr (at_ head 3) 6) 3 = cm).
  { change 3 with (Z.ones 2) at 2. rewrite field_bits by lia. rewrite H3.
    change (2 ^ 6) with 64. change (2 ^ 2) with 4.
    rewrite Z.div_add_l, (Z.div_small p4 64) by lia.
    rewrite Z.add_0_r, Z.mod_small by lia. done. }
  unfold decodeFrameAt. cbv zeta.
  change (0 + 1) with 1. change (0 + 2) with 2. change (0 + 3) with 3.
  rewrite Ev, El, Eb, Es, Ec, H0, H1, land_224 by lia.
  cbn [Z.eqb Pos.eqb andb negb].
  destruct (Z.eqb_spec bi 15); [lia|]. destruct (Z.eqb_spec si 3); [lia|].
  reflexivity.
Qed.

Lemma probe_frame_roundtrip_witness :
  probe (SrcBuffer (frameHeader 2 5 1 3 1 2 7 ++ [x00; x00]))
  = Ok (Mp3 {| mp3_sampleRate := 24000; mp3_channels := 1;
               bitrateKbps := Some 64; vbr := false; id3v2Bytes := Some 0 |}).
Proof.
  apply (probe_frame_roundtrip 2 5 1 3 1 2 7 [x00; x00]); try lia. reflexivity.
Defined.

(** ** Stitching in two steps *)




Section TwoSteps.
Variables (gapMs bytesPerMs : Z).





End TwoSteps.


